(** * Colour-palette generator (src/App.tsx): colour model and palette session

    A shallow embedding of the pure and stateful parts of [App.tsx]:
    [hexToRgb], [rgbToHsl], [generateHarmoniousPalette], [generateColorName],
    the shade ramp and clipboard strings of [ColorSwatch], and the session
    handlers [handleGenerate], [handleExport] and [updateName].

    Conventions.
    - A JavaScript [number] is an IEEE-754 binary64 value: Rocq's primitive
      [float], whose [+ - * /] round to nearest-even exactly as JavaScript's.
    - A JavaScript string is a [string]; its characters stand for UTF-16 code
      units below 256.
    - A number known to be integral ([parseInt], [Math.floor], [Math.round])
      is a [jsint]: a mathematical integer, [NaN] or an infinity.
    - [Math.random] is a stream of numbers consumed by a small state monad. *)

From Stdlib Require Import ZArith NArith List String Ascii Bool Lia Floats.
From stdpp Require Import base list.
Import ListNotations.

Set Warnings "-inexact-float".
Set Warnings "-register-all".

Local Open Scope string_scope.
Local Open Scope Z_scope.

(* ===================================================================== *)
(** ** Strings *)
(* ===================================================================== *)

Module Str.

(** Code unit of a character. *)
Definition code (c : ascii) : Z := Z.of_N (N_of_ascii c).

Definition inRange (lo hi : Z) (c : ascii) : bool :=
  (lo <=? code c) && (code c <=? hi).

(** [s.slice(from, to)] for non-negative [from] and [to]: the characters at
    positions [from .. to-1], cut at the end of [s]; empty when [to <= from]. *)
Definition slice (from to : nat) (s : string) : string :=
  substring from (to - from) s.

(** [take k] characters, reading [cur] and then [pad] again and again. *)
Fixpoint cycleTake (k : nat) (cur pad : string) : string :=
  match k with
  | O => ""
  | S k' =>
      match cur with
      | String c rest => String c (cycleTake k' rest pad)
      | EmptyString =>
          match pad with
          | String c rest => String c (cycleTake k' rest pad)
          | EmptyString => ""
          end
      end
  end.

(** [s.padStart(target, pad)]. *)
Definition padStart (target : nat) (pad : string) (s : string) : string :=
  if (target <=? String.length s)%nat then s
  else cycleTake (target - String.length s) pad pad ++ s.

(** ASCII lower-casing, the comparison key of a case-insensitive equality. *)
Definition lowerChar (c : ascii) : ascii :=
  if inRange 65 90 c then ascii_of_N (N_of_ascii c + 32) else c.

Fixpoint lower (s : string) : string :=
  match s with
  | EmptyString => EmptyString
  | String c rest => String (lowerChar c) (lower rest)
  end.

Fixpoint all (p : ascii -> bool) (s : string) : bool :=
  match s with
  | EmptyString => true
  | String c rest => p c && all p rest
  end.

End Str.

(* ===================================================================== *)
(** ** Integral numbers and their conversions to and from strings *)
(* ===================================================================== *)

(** The value of an integral JavaScript number. Minus zero is [JInt 0]: every
    conversion below prints it as zero does. *)
Inductive jsint : Type :=
| JInt (z : Z)
| JNaN
| JInf (neg : bool).

(** Value of a character as a digit in a radix up to 36. *)
Definition digitValue (radix : Z) (c : ascii) : option Z :=
  let v :=
    if Str.inRange 48 57 c then Some (Str.code c - 48)
    else if Str.inRange 97 122 c then Some (Str.code c - 87)
    else if Str.inRange 65 90 c then Some (Str.code c - 55)
    else None in
  match v with
  | Some d => if d <? radix then Some d else None
  | None => None
  end.

(** White space that [parseInt] skips (the code units below 256 of
    [StrWhiteSpaceChar]). *)
Definition isWhiteSpace (c : ascii) : bool :=
  Str.inRange 9 13 c || (Str.code c =? 32) || (Str.code c =? 160).

Fixpoint trimStart (s : string) : string :=
  match s with
  | String c rest => if isWhiteSpace c then trimStart rest else s
  | EmptyString => EmptyString
  end.

Definition stripSign (s : string) : bool * string :=
  match s with
  | String c rest =>
      if Str.code c =? 45 then (true, rest)
      else if Str.code c =? 43 then (false, rest)
      else (false, s)
  | EmptyString => (false, s)
  end.

Definition stripHexPrefix (s : string) : string :=
  match s with
  | String c0 (String c1 rest) =>
      if (Str.code c0 =? 48) && ((Str.code c1 =? 120) || (Str.code c1 =? 88))
      then rest else s
  | _ => s
  end.

(** The longest prefix of digits, read in [radix]; [None] when it is empty. *)
Fixpoint digitsValue (radix : Z) (acc : option Z) (s : string) : option Z :=
  match s with
  | String c rest =>
      match digitValue radix c with
      | Some d =>
          digitsValue radix
            (Some (radix * match acc with Some a => a | None => 0 end + d)) rest
      | None => acc
      end
  | EmptyString => acc
  end.

(** [parseInt(s, radix)] for an explicit radix; the result is the
    mathematical integer the digits denote. *)
Definition parseInt (s : string) (radix : Z) : jsint :=
  if (radix <? 2) || (36 <? radix) then JNaN
  else
    let '(neg, body) := stripSign (trimStart s) in
    let body := if radix =? 16 then stripHexPrefix body else body in
    match digitsValue radix None body with
    | Some v => JInt (if neg then - v else v)
    | None => JNaN
    end.

(** Digit [d] (below 36) as a lower-case character. *)
Definition digitChar (d : Z) : ascii :=
  ascii_of_N (Z.to_N (if d <? 10 then 48 + d else 87 + d)).

(** Digits of [n] in [radix], most significant first, in front of [acc]. *)
Fixpoint radixDigits (radix : Z) (fuel : nat) (n : Z) (acc : string) : string :=
  match fuel with
  | O => acc
  | S fuel' =>
      let acc' := String (digitChar (n mod radix)) acc in
      if n / radix =? 0 then acc' else radixDigits radix fuel' (n / radix) acc'
  end.

Definition digitsOfNat (radix : Z) (n : Z) : string :=
  radixDigits radix (S (Z.to_nat (Z.log2 n))) n "".

(** [n.toString(radix)] of an integral number, printed in full. *)
Definition toStringRadix (radix : Z) (n : jsint) : string :=
  match n with
  | JInt z =>
      if z <? 0 then "-" ++ digitsOfNat radix (- z) else digitsOfNat radix z
  | JNaN => "NaN"
  | JInf neg => if neg then "-Infinity" else "Infinity"
  end.

(** [String(n)], as a template literal prints an integral number. *)
Definition toString (n : jsint) : string := toStringRadix 10 n.

(** [n.toString(16)]. *)
Definition toString16 (n : jsint) : string := toStringRadix 16 n.

(* ===================================================================== *)
(** ** Colour model: hexadecimal strings and RGB triples *)
(* ===================================================================== *)

Record rgb : Type := Rgb { rgb_r : jsint; rgb_g : jsint; rgb_b : jsint }.

Definition hexToRgb (hex : string) : rgb :=
  let r := parseInt (Str.slice 1 3 hex) 16 in
  let g := parseInt (Str.slice 3 5 hex) 16 in
  let b := parseInt (Str.slice 5 7 hex) 16 in
  Rgb r g b.

Definition isHexDigit (c : ascii) : bool :=
  match digitValue 16 c with Some _ => true | None => false end.

(** A colour as the data model has it: [#] and six hexadecimal digits. *)
Definition validHexColor (s : string) : bool :=
  match s with
  | String c rest =>
      (Str.code c =? 35) && (String.length rest =? 6)%nat && Str.all isHexDigit rest
  | EmptyString => false
  end.

(** Modelled from the spec: the re-encoding of an RGB triple "as a 6-hex-digit
    string prefixed with [#], lowercase" (the source has no such function; it
    is written with the source's own [toString(16)] and [padStart]). *)
Definition rgbToHex (r g b : Z) : string :=
  let hex2 v := Str.padStart 2 "0" (toString16 (JInt v)) in
  "#" ++ hex2 r ++ hex2 g ++ hex2 b.

(* ===================================================================== *)
(** ** Numbers *)
(* ===================================================================== *)

(** The number nearest to an integer (exact below [2^53]). *)
Definition floatOfZ (z : Z) : float :=
  SF2Prim (binary_normalize prec emax z 0 false).

Definition numberOf (n : jsint) : float :=
  match n with
  | JInt z => floatOfZ z
  | JNaN => nan
  | JInf neg => if neg then neg_infinity else infinity
  end.

(** [Math.max] and [Math.min] of two numbers: [NaN] is contagious and [+0]
    is above [-0]. *)
Definition max2 (a b : float) : float :=
  if is_nan a then a
  else if is_nan b then b
  else if (a <? b)%float then b
  else if (b <? a)%float then a
  else if get_sign a then b else a.

Definition min2 (a b : float) : float :=
  if is_nan a then a
  else if is_nan b then b
  else if (a <? b)%float then a
  else if (b <? a)%float then b
  else if get_sign a then a else b.

Definition Math_max (a b c : float) : float := max2 (max2 a b) c.
Definition Math_min (a b c : float) : float := min2 (min2 a b) c.

(** The integer part of the exact value [(-1)^s * m * 2^e], rounded down. *)
Definition floorSF (x : spec_float) : jsint :=
  match x with
  | S754_zero _ => JInt 0
  | S754_infinity s => JInf s
  | S754_nan => JNaN
  | S754_finite s m e =>
      let v := cond_Zopp s (Zpos m) in
      JInt (if 0 <=? e then v * 2 ^ e else v / 2 ^ (- e))
  end.

(** [Math.floor]. *)
Definition Math_floor (x : float) : jsint := floorSF (Prim2SF x).

(** The integer nearest to the exact value, a tie going up: the floor of the
    value plus one half. *)
Definition roundSF (x : spec_float) : jsint :=
  match x with
  | S754_zero _ => JInt 0
  | S754_infinity s => JInf s
  | S754_nan => JNaN
  | S754_finite s m e =>
      let v := cond_Zopp s (Zpos m) in
      JInt (if 0 <=? e then v * 2 ^ e else (v + 2 ^ (- e - 1)) / 2 ^ (- e))
  end.

(** [Math.round]. *)
Definition Math_round (x : float) : jsint := roundSF (Prim2SF x).

(** The remainder [x % y] of two numbers: exact, with the sign of [x]. *)
Definition remSF (x y : spec_float) : spec_float :=
  match x, y with
  | S754_nan, _ | _, S754_nan => S754_nan
  | S754_infinity _, _ => S754_nan
  | _, S754_zero _ => S754_nan
  | _, S754_infinity _ => x
  | S754_zero _, S754_finite _ _ _ => x
  | S754_finite sx mx ex, S754_finite _ my ey =>
      let e := Z.min ex ey in
      let a := Zpos mx * 2 ^ (ex - e) in
      let b := Zpos my * 2 ^ (ey - e) in
      let r := Z.rem a b in
      if r =? 0 then S754_zero sx
      else binary_normalize prec emax (cond_Zopp sx r) e sx
  end.

Definition rem (x y : float) : float := SF2Prim (remSF (Prim2SF x) (Prim2SF y)).

(* ===================================================================== *)
(** ** Colour model: RGB to HSL *)
(* ===================================================================== *)

Record hsl : Type := Hsl { hsl_h : float; hsl_s : float; hsl_l : float }.

Definition rgbToHsl (r g b : float) : hsl :=
  let r := (r / 255)%float in
  let g := (g / 255)%float in
  let b := (b / 255)%float in
  let max := Math_max r g b in
  let min := Math_min r g b in
  let l := ((max + min) / 2)%float in
  let '(h, s) :=
    if (max =? min)%float then (0%float, 0%float)
    else
      let d := (max - min)%float in
      let s :=
        if (0.5 <? l)%float then (d / (2 - max - min))%float
        else (d / (max + min))%float in
      let h :=
        if (max =? r)%float then
          ((g - b) / d + (if (g <? b)%float then 6 else 0))%float
        else if (max =? g)%float then ((b - r) / d + 2)%float
        else if (max =? b)%float then ((r - g) / d + 4)%float
        else 0%float in
      ((h / 6)%float, s) in
  Hsl (h * 360)%float (s * 100)%float (l * 100)%float.

(* ===================================================================== *)
(** ** Random numbers *)
(* ===================================================================== *)

(** The numbers [Math.random] is going to return, in order. *)
Definition rng : Type := nat -> float.

(** A computation that draws random numbers. *)
Definition Rand (A : Type) : Type := rng -> A * rng.

Definition ret {A : Type} (a : A) : Rand A := fun g => (a, g).

Definition bind {A B : Type} (m : Rand A) (k : A -> Rand B) : Rand B :=
  fun g => let '(a, g') := m g in k a g'.

Notation "'let*' x ':=' m 'in' k" := (bind m (fun x => k))
  (at level 10, x name, m at level 100, k at level 200).

Definition Math_random : Rand float :=
  fun g => (g 0%nat, fun k => g (S k)).

(** [xs.map(f)] when [f] draws random numbers: element by element, in order. *)
Fixpoint mapRand {A B : Type} (f : A -> Rand B) (xs : list A) : Rand (list B) :=
  match xs with
  | [] => ret []
  | x :: rest =>
      let* y := f x in
      let* ys := mapRand f rest in
      ret (y :: ys)
  end.

(** What [Math.random] promises: a number in [[0, 1)]. *)
Definition unitInterval (u : float) : bool :=
  ((0 <=? u) && (u <? 1))%float.

Definition fair (g : rng) : Prop := forall k : nat, unitInterval (g k) = true.

(** The index [i] an array callback receives, as a number. *)
Definition indexNumber (i : nat) : float := floatOfZ (Z.of_nat i).

(* ===================================================================== *)
(** ** Palette generation and labels *)
(* ===================================================================== *)

Definition names : list string :=
  ["Sky"; "Ocean"; "Forest"; "Sunset"; "Stone"; "Berry"; "Cloud"; "Dusk"].

(** [names[i]] inside a template literal: a missing element prints as
    [undefined]. *)
Definition nameAt (i : jsint) : string :=
  match i with
  | JInt z =>
      if z <? 0 then "undefined"
      else match nth_error names (Z.to_nat z) with
           | Some w => w
           | None => "undefined"
           end
  | _ => "undefined"
  end.

Definition generateColorName (hex : string) : Rand string :=
  let* u := Math_random in
  ret (nameAt (Math_floor (u * floatOfZ (Z.of_nat (List.length names))))
         ++ "-" ++ Str.slice 1 4 hex).

(** One slot of the palette: the rotated hue is computed and never used. *)
Definition paletteSlot (baseHue : float) (i : nat) : Rand string :=
  let hue := rem (baseHue + indexNumber i * 72)%float 360 in
  let* u := Math_random in
  ret ("#" ++ Str.padStart 6 "0" (toString16 (Math_floor (u * 16777215)%float))).

Definition generateHarmoniousPalette : Rand (list string) :=
  let* u := Math_random in
  let baseHue := (u * 360)%float in
  mapRand (paletteSlot baseHue) (seq 0 5).

(* ===================================================================== *)
(** ** ColorSwatch: derived values, shade ramp and clipboard strings *)
(* ===================================================================== *)

(** [rgbToHsl(rgb.r, rgb.g, rgb.b)] of the swatch's colour. *)
Definition swatchHsl (color : string) : hsl :=
  let rgb := hexToRgb color in
  rgbToHsl (numberOf (rgb_r rgb)) (numberOf (rgb_g rgb)) (numberOf (rgb_b rgb)).

(** The components of the five shades: lightness times [1 - i * 0.2]. *)
Definition shadeComponents (x : hsl) : list hsl :=
  map (fun i : nat =>
         let factor := (1 - indexNumber i * 0.2)%float in
         Hsl (hsl_h x) (hsl_s x) (hsl_l x * factor)%float)
      (seq 0 5).

Section Swatch.

(** How a template literal prints an arbitrary number. *)
Variable numberToString : float -> string.

Definition hslString (x : hsl) : string :=
  "hsl(" ++ numberToString (hsl_h x) ++ ", " ++ numberToString (hsl_s x)
         ++ "%, " ++ numberToString (hsl_l x) ++ "%)".

Definition shades (color : string) : list string :=
  map hslString (shadeComponents (swatchHsl color)).

End Swatch.

(** The text copied from the RGB line. *)
Definition rgbClipboard (color : string) : string :=
  let rgb := hexToRgb color in
  toString (rgb_r rgb) ++ ", " ++ toString (rgb_g rgb) ++ ", "
    ++ toString (rgb_b rgb).

(** The text copied from the HSL line. *)
Definition hslClipboard (color : string) : string :=
  let x := swatchHsl color in
  toString (Math_round (hsl_h x)) ++ ", " ++ toString (Math_round (hsl_s x))
    ++ "%, " ++ toString (Math_round (hsl_l x)) ++ "%".

(* ===================================================================== *)
(** ** Palette session *)
(* ===================================================================== *)

Record entry : Type := Entry { color : string; name : string }.

Record adjustment : Type :=
  Adjustment { hue : float; saturation : float; brightness : float }.

(** The two pieces of state of [App]. *)
Record session : Type :=
  Session { palette : list entry; adjustments : adjustment }.

(** [generateHarmoniousPalette().map(color => ({color, name: ...}))]. *)
Definition freshPalette : Rand (list entry) :=
  let* colors := generateHarmoniousPalette in
  mapRand (fun c => let* n := generateColorName c in ret (Entry c n)) colors.

(** The initial state. *)
Definition initialSession : Rand session :=
  let* p := freshPalette in
  ret (Session p (Adjustment 0 0 0)).

Definition handleGenerate (st : session) : Rand session :=
  let* p := freshPalette in
  ret (Session p (adjustments st)).

Definition updateName (index : Z) (newName : string) (st : session) : session :=
  Session
    (imap (fun i item =>
             if decide (Z.of_nat i = index) then Entry (color item) newName
             else item)
          (palette st))
    (adjustments st).

Definition setHue (v : float) (st : session) : session :=
  let prev := adjustments st in
  Session (palette st) (Adjustment v (saturation prev) (brightness prev)).

Definition setSaturation (v : float) (st : session) : session :=
  let prev := adjustments st in
  Session (palette st) (Adjustment (hue prev) v (brightness prev)).

Definition setBrightness (v : float) (st : session) : session :=
  let prev := adjustments st in
  Session (palette st) (Adjustment (hue prev) (saturation prev) v).

(* ===================================================================== *)
(** ** JSON: values, [JSON.stringify] and [JSON.parse] *)
(* ===================================================================== *)

(** JSON values (numbers left out: a snapshot holds none). *)
Inductive json : Type :=
| JNull
| JBool (b : bool)
| JStr (s : string)
| JArr (items : list json)
| JObj (members : list (string * json)).

Definition chr (n : Z) : ascii := ascii_of_N (Z.to_N n).

Definition dquote : ascii := chr 34.
Definition backslash : ascii := chr 92.
Definition newline : string := String (chr 10) "".

(** One code unit inside a quoted JSON string. *)
Definition quoteChar (c : ascii) : string :=
  let n := Str.code c in
  if n =? 34 then String backslash (String dquote "")
  else if n =? 92 then String backslash (String backslash "")
  else if n =? 8 then String backslash "b"
  else if n =? 12 then String backslash "f"
  else if n =? 10 then String backslash "n"
  else if n =? 13 then String backslash "r"
  else if n =? 9 then String backslash "t"
  else if n <? 32 then
    String backslash ("u00" ++ Str.padStart 2 "0" (digitsOfNat 16 n))
  else String c "".

Fixpoint quoteBody (s : string) : string :=
  match s with
  | EmptyString => ""
  | String c rest => quoteChar c ++ quoteBody rest
  end.

(** [QuoteJSONString]. *)
Definition quoteJSONString (s : string) : string :=
  String dquote (quoteBody s ++ String dquote "").

Fixpoint join (sep : string) (parts : list string) : string :=
  match parts with
  | [] => ""
  | [p] => p
  | p :: rest => p ++ sep ++ join sep rest
  end.

(** The text of an array or object from the texts of its parts; [indent] is
    the indentation of the enclosing line. *)
Definition bracket (opening closing gap indent : string) (parts : list string)
  : string :=
  match parts with
  | [] => opening ++ closing
  | _ =>
      if (String.length gap =? 0)%nat then opening ++ join "," parts ++ closing
      else
        opening ++ newline ++ indent ++ gap
          ++ join ("," ++ newline ++ indent ++ gap) parts
          ++ newline ++ indent ++ closing
  end.

(** [SerializeJSONProperty] on a value already converted to [json]. *)
Fixpoint serialize (gap indent : string) (v : json) : string :=
  match v with
  | JNull => "null"
  | JBool b => if b then "true" else "false"
  | JStr s => quoteJSONString s
  | JArr items =>
      bracket "[" "]" gap indent (map (serialize gap (indent ++ gap)) items)
  | JObj members =>
      bracket "{" "}" gap indent
        (map (fun kv : string * json =>
                quoteJSONString (fst kv) ++ ":"
                  ++ (if (String.length gap =? 0)%nat then "" else " ")
                  ++ serialize gap (indent ++ gap) (snd kv))
             members)
  end.

Fixpoint spaces (n : nat) : string :=
  match n with
  | O => ""
  | S n' => String (chr 32) (spaces n')
  end.

(** [JSON.stringify(v, null, space)] for a numeric [space]. *)
Definition JSON_stringify (v : json) (space : nat) : string :=
  serialize (spaces (Nat.min 10 space)) "" v.

(** The JSON value of an entry and of the palette array. *)
Definition entryJson (e : entry) : json :=
  JObj [("color", JStr (color e)); ("name", JStr (name e))].

Definition paletteJson (p : list entry) : json := JArr (map entryJson p).

(** The text [handleExport] hands to the download: the palette only. *)
Definition handleExport (st : session) : string :=
  JSON_stringify (paletteJson (palette st)) 2.

(** The snapshot format in the words of the specification: an array of
    objects with the fields [color] and [name], indented by two spaces. *)
Definition snapshotEntry (e : entry) : string :=
  "  {" ++ newline
    ++ "    " ++ quoteJSONString "color" ++ ": " ++ quoteJSONString (color e)
    ++ "," ++ newline
    ++ "    " ++ quoteJSONString "name" ++ ": " ++ quoteJSONString (name e)
    ++ newline ++ "  }".

Definition snapshotFormat (p : list entry) : string :=
  match p with
  | [] => "[]"
  | _ => "[" ++ newline ++ join ("," ++ newline) (map snapshotEntry p)
             ++ newline ++ "]"
  end.

(** *** Reading a snapshot back *)

Definition isJsonSpace (c : ascii) : bool :=
  let n := Str.code c in
  (n =? 32) || (n =? 9) || (n =? 10) || (n =? 13).

Fixpoint skipWs (s : string) : string :=
  match s with
  | String c rest => if isJsonSpace c then skipWs rest else s
  | EmptyString => EmptyString
  end.

(** The character a one-letter escape stands for. *)
Definition unescape (e : ascii) : option ascii :=
  let n := Str.code e in
  if n =? 34 then Some dquote
  else if n =? 92 then Some backslash
  else if n =? 47 then Some (chr 47)
  else if n =? 98 then Some (chr 8)
  else if n =? 102 then Some (chr 12)
  else if n =? 110 then Some (chr 10)
  else if n =? 114 then Some (chr 13)
  else if n =? 116 then Some (chr 9)
  else None.

Definition consChar (c : ascii) (r : option (string * string))
  : option (string * string) :=
  match r with
  | Some (x, rest) => Some (String c x, rest)
  | None => None
  end.

(** The characters of a string literal after its opening quote, and the
    text after its closing quote. *)
Fixpoint parseStringBody (s : string) : option (string * string) :=
  match s with
  | EmptyString => None
  | String c r =>
      if Str.code c =? 34 then Some ("", r)
      else if Str.code c =? 92 then
        match r with
        | EmptyString => None
        | String e r1 =>
            if Str.code e =? 117 then
              match r1 with
              | String h1 (String h2 (String h3 (String h4 r2))) =>
                  match digitValue 16 h1, digitValue 16 h2,
                        digitValue 16 h3, digitValue 16 h4 with
                  | Some d1, Some d2, Some d3, Some d4 =>
                      let v := ((d1 * 16 + d2) * 16 + d3) * 16 + d4 in
                      if v <? 256 then consChar (chr v) (parseStringBody r2)
                      else None
                  | _, _, _, _ => None
                  end
              | _ => None
              end
            else
              match unescape e with
              | Some ch => consChar ch (parseStringBody r1)
              | None => None
              end
        end
      else if Str.code c <? 32 then None
      else consChar c (parseStringBody r)
  end.

(** [s] without the prefix [p], when it has it. *)
Fixpoint dropPrefix (p s : string) : option string :=
  match p, s with
  | EmptyString, _ => Some s
  | String a p', String b s' => if Ascii.eqb a b then dropPrefix p' s' else None
  | String _ _, EmptyString => None
  end.

(** A recursive-descent reader; [fuel] bounds the nesting and the number of
    elements read. *)
Fixpoint parseValue (fuel : nat) (s : string) : option (json * string) :=
  match fuel with
  | O => None
  | S f =>
      match skipWs s with
      | EmptyString => None
      | String c r =>
          if Str.code c =? 34 then
            match parseStringBody r with
            | Some (x, r') => Some (JStr x, r')
            | None => None
            end
          else if Str.code c =? 91 then
            match skipWs r with
            | String c' r' =>
                if Str.code c' =? 93 then Some (JArr [], r')
                else parseElements f r []
            | EmptyString => None
            end
          else if Str.code c =? 123 then
            match skipWs r with
            | String c' r' =>
                if Str.code c' =? 125 then Some (JObj [], r')
                else parseMembers f r []
            | EmptyString => None
            end
          else
            match dropPrefix "true" (String c r) with
            | Some r' => Some (JBool true, r')
            | None =>
                match dropPrefix "false" (String c r) with
                | Some r' => Some (JBool false, r')
                | None =>
                    match dropPrefix "null" (String c r) with
                    | Some r' => Some (JNull, r')
                    | None => None
                    end
                end
            end
      end
  end
with parseElements (fuel : nat) (s : string) (acc : list json)
  : option (json * string) :=
  match fuel with
  | O => None
  | S f =>
      match parseValue f s with
      | Some (v, r) =>
          match skipWs r with
          | String c r' =>
              if Str.code c =? 44 then parseElements f r' (v :: acc)
              else if Str.code c =? 93 then Some (JArr (rev (v :: acc)), r')
              else None
          | EmptyString => None
          end
      | None => None
      end
  end
with parseMembers (fuel : nat) (s : string) (acc : list (string * json))
  : option (json * string) :=
  match fuel with
  | O => None
  | S f =>
      match skipWs s with
      | String c r =>
          if Str.code c =? 34 then
            match parseStringBody r with
            | Some (k, r1) =>
                match skipWs r1 with
                | String c1 r2 =>
                    if Str.code c1 =? 58 then
                      match parseValue f r2 with
                      | Some (v, r3) =>
                          match skipWs r3 with
                          | String c3 r4 =>
                              if Str.code c3 =? 44 then
                                parseMembers f r4 ((k, v) :: acc)
                              else if Str.code c3 =? 125 then
                                Some (JObj (rev ((k, v) :: acc)), r4)
                              else None
                          | EmptyString => None
                          end
                      | None => None
                      end
                    else None
                | EmptyString => None
                end
            | None => None
            end
          else None
      | EmptyString => None
      end
  end.

(** Modelled from the spec: "parsing the serialized form back" is
    [JSON.parse], which the source never calls; this reader follows the JSON
    grammar for strings, arrays, objects and the three literals. *)
Definition JSON_parse (s : string) : option json :=
  match parseValue (S (String.length s)) s with
  | Some (v, rest) =>
      match skipWs rest with
      | EmptyString => Some v
      | String _ _ => None
      end
  | None => None
  end.

(** The value of property [k]: of several members with one key the last
    one counts. *)
Fixpoint property (k : string) (members : list (string * json)) : option json :=
  match members with
  | [] => None
  | (k', v) :: rest =>
      match property k rest with
      | Some v' => Some v'
      | None => if String.eqb k k' then Some v else None
      end
  end.

Definition entryOfJson (v : json) : option entry :=
  match v with
  | JObj members =>
      match property "color" members, property "name" members with
      | Some (JStr c), Some (JStr n) => Some (Entry c n)
      | _, _ => None
      end
  | _ => None
  end.

Fixpoint entriesOfJson (vs : list json) : option (list entry) :=
  match vs with
  | [] => Some []
  | v :: rest =>
      match entryOfJson v, entriesOfJson rest with
      | Some e, Some es => Some (e :: es)
      | _, _ => None
      end
  end.

(** The (color, name) pairs of a snapshot text. *)
Definition importSnapshot (s : string) : option (list entry) :=
  match JSON_parse s with
  | Some (JArr vs) => entriesOfJson vs
  | _ => None
  end.

(* ===================================================================== *)
(** ** The application as a sequence of events *)
(* ===================================================================== *)

(** What the user can do to the session: the button [Generate New], typing
    in the name field of swatch [index], and the three sliders. *)
Inductive event : Type :=
| Generate
| Rename (index : Z) (newName : string)
| SlideHue (v : float)
| SlideSaturation (v : float)
| SlideBrightness (v : float).

Definition step (ev : event) (st : session) : Rand session :=
  match ev with
  | Generate => handleGenerate st
  | Rename index newName => ret (updateName index newName st)
  | SlideHue v => ret (setHue v st)
  | SlideSaturation v => ret (setSaturation v st)
  | SlideBrightness v => ret (setBrightness v st)
  end.

(** The events of a list, one after the other. *)
Fixpoint run (evs : list event) (st : session) : Rand session :=
  match evs with
  | [] => ret st
  | ev :: rest => let* st' := step ev st in run rest st'
  end.

(** The whole life of the application: start-up, then the events. *)
Definition application (evs : list event) : Rand session :=
  let* st := initialSession in run evs st.

Definition isGenerate (ev : event) : bool :=
  match ev with Generate => true | _ => false end.

Definition isSlide (ev : event) : bool :=
  match ev with
  | SlideHue _ | SlideSaturation _ | SlideBrightness _ => true
  | _ => false
  end.

(** Five entries, each with a valid colour. *)
Definition wellFormed (st : session) : Prop :=
  List.length (palette st) = 5%nat /\
  List.Forall (fun e : entry => validHexColor (color e) = true) (palette st).

(* ===================================================================== *)
(** ** Auxiliary definitions: tables and checks the proofs evaluate *)
(* ===================================================================== *)

(** The twenty-two hexadecimal digits. *)
Definition hexChars : list ascii :=
  list_ascii_of_string "0123456789abcdefABCDEF".

(** A pair of digits parses to a byte that prints back as the same pair,
    letter case apart. *)
Definition hexPairOk (a b : ascii) : bool :=
  match parseInt (String a (String b "")) 16 with
  | JInt v =>
      (0 <=? v) && (v <=? 255)
      && String.eqb (Str.lower (Str.padStart 2 "0" (toString16 (JInt v))))
                    (Str.lower (String a (String b "")))
  | _ => false
  end.

(** Order on numbers, as the comparison operators decide it. *)
Definition fle (a b : float) : Prop := (a <=? b)%float = true.
Definition flt (a b : float) : Prop := (a <? b)%float = true.

(** The numbers 0 .. 255, and the same divided by 255. *)
Definition channels : list float :=
  Eval vm_compute in map (fun k : nat => floatOfZ (Z.of_nat k)) (seq 0 256).

Definition units : list float :=
  Eval vm_compute in map (fun x : float => (x / 255)%float) channels.

(** [Math.max] and [Math.min] of two numbers that are not [NaN] and not
    zeros of opposite signs. *)
Definition fmax (a b : float) : float := if (a <? b)%float then b else a.
Definition fmin (a b : float) : float := if (b <? a)%float then b else a.

(** Hue, saturation and lightness as [rgbToHsl] computes them once the
    channels are divided by 255 and the largest and smallest are known. *)
Definition hueOf (r g b max min : float) : float :=
  ((if (max =? min)%float then 0
    else
      (if (max =? r)%float then
         (g - b) / (max - min) + (if (g <? b)%float then 6 else 0)
       else if (max =? g)%float then (b - r) / (max - min) + 2
       else if (max =? b)%float then (r - g) / (max - min) + 4
       else 0) / 6) * 360)%float.

Definition satOf (max min : float) : float :=
  ((if (max =? min)%float then 0
    else if (0.5 <? (max + min) / 2)%float
         then (max - min) / (2 - max - min)
         else (max - min) / (max + min)) * 100)%float.

Definition lightOf (max min : float) : float :=
  ((max + min) / 2 * 100)%float.

Definition inRangeOk (lo x hi : float) : bool :=
  ((lo <=? x) && (x <=? hi))%float.

Definition hueOk (h : float) : bool := ((0 <=? h) && (h <? 360))%float.

(** The five factors [1 - i * 0.2] of the shade ramp, and the lightness
    values they give a colour of lightness [l]. *)
Definition shadeFactors : list float :=
  Eval vm_compute in
    map (fun i : nat => (1 - indexNumber i * 0.2)%float) (seq 0 5).

Definition rampOf (l : float) : list float :=
  map (fun factor : float => (l * factor)%float) shadeFactors.

Fixpoint nonIncreasing (xs : list float) : bool :=
  match xs with
  | x :: (y :: _) as rest => (y <=? x)%float && nonIncreasing rest
  | _ => true
  end.

(** The ramp starts at [l] and never goes up. *)
Definition rampOk (l : float) : bool :=
  match rampOf l with
  | first :: _ => Leibniz.eqb first l
  | [] => false
  end
  && nonIncreasing (rampOf l).

(** What the proofs need of two unit channels [a] and [b]. *)
Definition pairOk (a b : float) : bool :=
  Leibniz.eqb (max2 a b) (fmax a b)
  && Leibniz.eqb (min2 a b) (fmin a b)
  && (fmin a b <=? fmax a b)%float
  && ((b <? a) || (a <=? b))%float
  && (if (b <=? a)%float
      then inRangeOk 0 (satOf a b) 100 && inRangeOk 0 (lightOf a b) 100
           && rampOk (lightOf a b)
      else true).

Definition tripleOk (r g b m n : float) : bool :=
  hueOk (hueOf r g b (fmax m b) (fmin n b)).

Definition achromaticOk (v : float) : bool :=
  let x := rgbToHsl v v v in
  Leibniz.eqb (hsl_h x) 0 && Leibniz.eqb (hsl_s x) 0.

(** The integer a string of hexadecimal digits denotes after [acc]. *)
Fixpoint hexValue (acc : Z) (s : string) : Z :=
  match s with
  | EmptyString => acc
  | String c rest =>
      hexValue (16 * acc + match digitValue 16 c with
                           | Some d => d
                           | None => 0
                           end) rest
  end.

(** Digit [d] prints as a hexadecimal digit of value [d]. *)
Definition hexDigitOk (d : Z) : bool :=
  isHexDigit (digitChar d)
  && match digitValue 16 (digitChar d) with
     | Some d' => d' =? d
     | None => false
     end.

(** The colour string of the integer [n], and of the random number [u]. *)
Definition colorOfInt (n : Z) : string :=
  "#" ++ Str.padStart 6 "0" (toString16 (JInt n)).

Definition colorOfDraw (u : float) : string :=
  "#" ++ Str.padStart 6 "0" (toString16 (Math_floor (u * 16777215)%float)).

(** The label [generateColorName] builds from the random number [u]. *)
Definition labelOfDraw (hex : string) (u : float) : string :=
  nameAt (Math_floor (u * floatOfZ (Z.of_nat (List.length names))))
    ++ "-" ++ Str.slice 1 4 hex.

(** The largest number below 1. *)
Definition topDraw : float := 0x1.fffffffffffffp-1%float.




(** The unit channel of the integer [v]. *)
Definition unitOf (v : Z) : float := (floatOfZ v / 255)%float.

(** The integers 0 .. 255, each with its unit channel. *)
Definition indexedUnits : list (Z * float) :=
  Eval vm_compute in
    map (fun k : nat => (Z.of_nat k, unitOf (Z.of_nat k))) (seq 0 256).

(** Comparisons of unit channels follow the integers; a pair of a largest
    and a smallest channel is grey, black or white exactly when the
    integers say so, and its shades are percentages. *)
Definition indexedPairOk (p q : Z * float) : bool :=
  let '(i, a) := p in
  let '(j, b) := q in
  Bool.eqb (a <? b)%float (i <? j)
  && Bool.eqb (a =? b)%float (i =? j)
  && (if j <=? i
      then Bool.eqb (Leibniz.eqb (satOf a b) 0) (i =? j)
           && Bool.eqb (Leibniz.eqb (lightOf a b) 0) (i =? 0)
           && Bool.eqb (Leibniz.eqb (lightOf a b) 100) (j =? 255)
           && forallb (fun x => inRangeOk 0 x 100) (rampOf (lightOf a b))
      else true).

(** The hue lies in the sector of the largest channel. *)
Definition sectorOk (r g b m n : float) : bool :=
  let max := fmax m b in
  let min := fmin n b in
  let h := hueOf r g b max min in
  if (max =? min)%float then Leibniz.eqb h 0
  else if (max =? r)%float then
    (if (g <? b)%float then (300 <=? h)%float && (h <? 360)%float
     else (0 <=? h)%float && (h <=? 60)%float)
  else if (max =? g)%float then (60 <=? h)%float && (h <=? 180)%float
  else (180 <=? h)%float && (h <=? 300)%float.

(** Number of line breaks in a text. *)
Fixpoint lineBreaks (s : string) : nat :=
  match s with
  | EmptyString => O
  | String c rest =>
      if Str.code c =? 10 then S (lineBreaks rest) else lineBreaks rest
  end.

(** A character that is no control character, or the line break. *)
Definition plainOrBreak (c : ascii) : bool :=
  (32 <=? Str.code c) || (Str.code c =? 10).

Definition plain (c : ascii) : bool := 32 <=? Str.code c.

(** A pair of hexadecimal digits parses to the integer it denotes. *)
Definition hexPairValueOk (a b : ascii) : bool :=
  match parseInt (String a (String b "")) 16 with
  | JInt v => v =? hexValue 0 (String a (String b ""))
  | _ => false
  end.

(** Digit [d] prints as a character that lower-casing leaves alone. *)
Definition lowerDigitOk (d : Z) : bool :=
  Ascii.eqb (Str.lowerChar (digitChar d)) (digitChar d).

(* ===================================================================== *)
(** * Properties *)
(* ===================================================================== *)

(** ** Renaming an entry *)

Lemma updateName_lookup (st : session) (index : Z) (newName : string) (i : nat) :
  palette (updateName index newName st) !! i =
    (fun item => if decide (Z.of_nat i = index)
                 then Entry (color item) newName else item)
      <$> palette st !! i.
Proof. unfold updateName; simpl. apply list_lookup_imap. Qed.

(** C6. [updateName index newName] keeps the adjustments and the number of
    entries; at a position equal to [index] the entry keeps its colour and
    gets the new name; every entry at another position is unchanged; and
    when [index] is no position of the palette the whole session is
    unchanged. *)
Theorem updateName_frame (st : session) (index : Z) (newName : string) :
  adjustments (updateName index newName st) = adjustments st /\
  List.length (palette (updateName index newName st))
    = List.length (palette st) /\
  (forall (i : nat) (e : entry),
      palette st !! i = Some e -> Z.of_nat i = index ->
      palette (updateName index newName st) !! i
        = Some (Entry (color e) newName)) /\
  (forall i : nat,
      Z.of_nat i <> index ->
      palette (updateName index newName st) !! i = palette st !! i) /\
  (~ (0 <= index < Z.of_nat (List.length (palette st))) ->
   updateName index newName st = st).
Proof.
  repeat split.
  - unfold updateName; simpl. apply length_imap.
  - intros i e He Hi. rewrite updateName_lookup, He; simpl.
    destruct (decide (Z.of_nat i = index)); [reflexivity | contradiction].
  - intros i Hi. rewrite updateName_lookup.
    destruct (palette st !! i); simpl; [|reflexivity].
    destruct (decide (Z.of_nat i = index)); [contradiction | reflexivity].
  - intros Hout. destruct st as [p a]. unfold updateName; simpl. f_equal.
    apply list_eq. intros i. rewrite list_lookup_imap.
    destruct (p !! i) eqn:Hi; simpl; [|reflexivity].
    destruct (decide (Z.of_nat i = index)) as [Heq|]; [|reflexivity].
    exfalso. apply Hout. apply lookup_lt_Some in Hi. simpl. lia.
Qed.

(** ** Exporting a snapshot and reading it back *)

Lemma str_app_assoc (a b c : string) : (a ++ b) ++ c = a ++ (b ++ c).
Proof. induction a as [|x a IH]; simpl; [reflexivity | now rewrite IH]. Qed.

Lemma str_length_app (a b : string) :
  String.length (a ++ b) = (String.length a + String.length b)%nat.
Proof. induction a as [|x a IH]; simpl; [reflexivity | now rewrite IH]. Qed.

Lemma quote_app (s t : string) :
  quoteJSONString s ++ t = String dquote (quoteBody s ++ String dquote t).
Proof. unfold quoteJSONString; simpl. now rewrite str_app_assoc. Qed.

Lemma join_indent (gap sep : string) (parts : list string) :
  parts <> [] ->
  gap ++ join (sep ++ gap) parts = join sep (map (append gap) parts).
Proof.
  induction parts as [|p rest IH]; [congruence | intros _].
  destruct rest as [|q rest]; [reflexivity|].
  change (join (sep ++ gap) (p :: q :: rest))
    with (p ++ (sep ++ gap) ++ join (sep ++ gap) (q :: rest)).
  change (join sep (map (append gap) (p :: q :: rest)))
    with ((gap ++ p) ++ sep ++ join sep (map (append gap) (q :: rest))).
  rewrite <- IH by congruence.
  now rewrite !str_app_assoc.
Qed.

Lemma serialize_entry (e : entry) :
  "  " ++ serialize "  " "  " (entryJson e) = snapshotEntry e.
Proof.
  unfold snapshotEntry, entryJson, serialize, bracket, join, newline; simpl.
  repeat (rewrite str_app_assoc; simpl). reflexivity.
Qed.

Lemma bracket_indented (opening closing gap indent : string)
      (parts : list string) :
  parts <> [] -> (String.length gap =? 0)%nat = false ->
  bracket opening closing gap indent parts
    = opening ++ newline ++ indent ++ gap
        ++ join ("," ++ newline ++ indent ++ gap) parts
        ++ newline ++ indent ++ closing.
Proof.
  intros Hne Hgap. unfold bracket. rewrite Hgap.
  destruct parts; [congruence | reflexivity].
Qed.

Lemma handleExport_format (p : list entry) (a : adjustment) :
  handleExport (Session p a) = snapshotFormat p.
Proof.
  destruct p as [|e p]; [reflexivity|].
  unfold handleExport, JSON_stringify, paletteJson. simpl palette.
  change (spaces (Nat.min 10 2)) with "  ".
  change (serialize "  " "" (JArr (map entryJson (e :: p))))
    with (bracket "[" "]" "  " ""
            (map (serialize "  " "  ") (map entryJson (e :: p)))).
  rewrite bracket_indented by (simpl; discriminate || reflexivity).
  change ("," ++ newline ++ "" ++ "  ") with (("," ++ newline) ++ "  ").
  change ("" ++ "  " ++ ?x) with ("  " ++ x).
  rewrite <- (str_app_assoc "  " (join _ _)).
  rewrite join_indent by (simpl; discriminate).
  rewrite !map_map.
  rewrite (map_ext _ snapshotEntry) by apply serialize_entry.
  reflexivity.
Qed.

Lemma parse_quoteChar (c : ascii) (t : string) :
  parseStringBody (quoteChar c ++ t) = consChar c (parseStringBody t).
Proof. destruct c as [[] [] [] [] [] [] [] []]; reflexivity. Qed.

Lemma parse_quoteBody (s rest : string) :
  parseStringBody (quoteBody s ++ String dquote rest) = Some (s, rest).
Proof.
  induction s as [|c s IH]; [reflexivity|].
  simpl quoteBody. rewrite str_app_assoc, parse_quoteChar, IH. reflexivity.
Qed.

Lemma parse_entry (e : entry) (f : nat) (t : string) :
  parseValue (S (S (S (S f)))) (newline ++ snapshotEntry e ++ t)
    = Some (entryJson e, t).
Proof.
  unfold snapshotEntry, newline.
  repeat (rewrite str_app_assoc; simpl).
  rewrite parse_quoteBody. simpl.
  rewrite parse_quoteBody. simpl. reflexivity.
Qed.

Lemma join_single_app (sep x t : string) : join sep [x] ++ t = x ++ t.
Proof. reflexivity. Qed.

Lemma join_cons_app (sep x : string) (xs : list string) (t : string) :
  xs <> [] -> join sep (x :: xs) ++ t = x ++ sep ++ join sep xs ++ t.
Proof.
  destruct xs as [|y ys]; [congruence | intros _].
  change (join sep (x :: y :: ys)) with (x ++ sep ++ join sep (y :: ys)).
  now rewrite !str_app_assoc.
Qed.

Lemma parse_entries (p : list entry) :
  forall (acc : list json) (fuel : nat) (rest : string),
    p <> [] -> (List.length p + 4 <= fuel)%nat ->
    parseElements fuel
      (newline ++ join ("," ++ newline) (map snapshotEntry p)
         ++ newline ++ "]" ++ rest) acc
    = Some (JArr (rev acc ++ map entryJson p), rest).
Proof.
  induction p as [|e p IH]; intros acc fuel rest Hne Hfuel; [congruence|].
  destruct fuel as [|f]; [simpl in Hfuel; lia|].
  assert (Hf : exists f', f = S (S (S (S f')))).
  { simpl in Hfuel. exists (f - 4)%nat. lia. }
  destruct Hf as [f' Hf'].
  assert (Hcase : p = [] \/ p <> [])
    by (destruct p; [left; reflexivity | right; discriminate]).
  destruct Hcase as [Hp | Hp].
  - subst p. simpl map. rewrite join_single_app.
    cbn [parseElements]. rewrite Hf' at 1. rewrite parse_entry.
    simpl. reflexivity.
  - change (map snapshotEntry (e :: p))
      with (snapshotEntry e :: map snapshotEntry p).
    rewrite join_cons_app by (destruct p; [congruence | discriminate]).
    cbn [parseElements]. rewrite Hf' at 1. rewrite parse_entry.
    change (("," ++ newline) ++ ?u) with (String "," (newline ++ u)).
    cbn [skipWs].
    change (isJsonSpace ",") with false. cbv iota.
    change (Str.code "," =? 44) with true. cbv iota.
    rewrite IH.
    + simpl rev. rewrite <- List.app_assoc. reflexivity.
    + exact Hp.
    + simpl in Hfuel. lia.
Qed.

Lemma parse_array_open (fuel : nat) (e : entry) (t : string) :
  parseValue (S fuel) ("[" ++ newline ++ snapshotEntry e ++ t)
    = parseElements fuel (newline ++ snapshotEntry e ++ t) [].
Proof. reflexivity. Qed.

Lemma join_length (sep : string) (parts : list string) :
  Forall (fun x => (1 <= String.length x)%nat) parts ->
  (List.length parts <= String.length (join sep parts))%nat.
Proof.
  induction 1 as [|x xs Hx Hxs IH]; [simpl; lia|].
  destruct xs as [|y ys]; [simpl in *; lia|].
  change (join sep (x :: y :: ys)) with (x ++ sep ++ join sep (y :: ys)).
  rewrite !str_length_app. simpl List.length in *. lia.
Qed.

Lemma snapshotFormat_length (p : list entry) :
  p <> [] -> (List.length p + 4 <= String.length (snapshotFormat p))%nat.
Proof.
  intros Hp. destruct p as [|e p]; [congruence|].
  unfold snapshotFormat. rewrite !str_length_app.
  assert (H := join_length ("," ++ newline) (map snapshotEntry (e :: p))).
  rewrite length_map in H.
  assert (Hall : Forall (fun x => (1 <= String.length x)%nat)
                   (map snapshotEntry (e :: p))).
  { apply Forall_map, Forall_forall. intros x _.
    unfold snapshotEntry. simpl. lia. }
  specialize (H Hall).
  change (String.length "[") with 1%nat.
  change (String.length newline) with 1%nat.
  change (String.length "]") with 1%nat.
  simpl List.length in *. lia.
Qed.

Lemma entriesOfJson_palette (p : list entry) :
  entriesOfJson (map entryJson p) = Some p.
Proof.
  induction p as [|[c n] p IH]; [reflexivity|].
  simpl map. cbn [entriesOfJson]. rewrite IH. reflexivity.
Qed.

Lemma importSnapshot_format (p : list entry) :
  importSnapshot (snapshotFormat p) = Some p.
Proof.
  destruct p as [|e p]; [reflexivity|].
  unfold importSnapshot, JSON_parse.
  assert (Hlen := snapshotFormat_length (e :: p) ltac:(discriminate)).
  set (fuel := String.length (snapshotFormat (e :: p))) in *.
  assert (Hparse : parseValue (S fuel) (snapshotFormat (e :: p))
                   = Some (paletteJson (e :: p), "")).
  { unfold snapshotFormat.
    assert (Hcase : p = [] \/ p <> [])
      by (destruct p; [left; reflexivity | right; discriminate]).
    pose proof (parse_entries (e :: p) [] fuel "" ltac:(discriminate) Hlen)
      as Hel.
    destruct Hcase as [Hp | Hp].
    - subst p. simpl map in *. rewrite join_single_app in *.
      rewrite parse_array_open. exact Hel.
    - change (map snapshotEntry (e :: p))
        with (snapshotEntry e :: map snapshotEntry p) in *.
      rewrite join_cons_app in * by (destruct p; [congruence | discriminate]).
      rewrite parse_array_open. exact Hel. }
  rewrite Hparse. simpl skipWs. unfold paletteJson.
  apply entriesOfJson_palette.
Qed.

(** C5. [handleExport] writes exactly the snapshot format (a JSON array of
    objects with the fields [color] and [name], two-space indentation), its
    text does not depend on the adjustment record, and reading the text back
    gives the session's (color, name) pairs in the same order. *)
Theorem handleExport_roundtrip (st : session) :
  handleExport st = snapshotFormat (palette st) /\
  (forall a : adjustment,
      handleExport (Session (palette st) a) = handleExport st) /\
  importSnapshot (handleExport st) = Some (palette st).
Proof.
  destruct st as [p a]. simpl palette.
  split; [apply handleExport_format|].
  split; [intros a'; now rewrite !handleExport_format|].
  rewrite handleExport_format. apply importSnapshot_format.
Qed.

(** ** Hexadecimal colours and RGB triples *)

Example hexToRgb_336699 :
  hexToRgb "#336699" = Rgb (JInt 51) (JInt 102) (JInt 153).
Proof. reflexivity. Qed.

Example rgbToHex_336699 : rgbToHex 51 102 153 = "#336699".
Proof. reflexivity. Qed.

Lemma isHexDigit_In (c : ascii) : isHexDigit c = true -> In c hexChars.
Proof.
  destruct c as [[] [] [] [] [] [] [] []]; intros H;
    try discriminate H; simpl;
    repeat (first [left; reflexivity | right]).
Qed.

Lemma hexPairs_ok :
  forallb (fun a => forallb (hexPairOk a) hexChars) hexChars = true.
Proof. vm_compute. reflexivity. Qed.

Lemma hexPair_roundtrip (a b : ascii) :
  isHexDigit a = true -> isHexDigit b = true ->
  exists v : Z,
    parseInt (String a (String b "")) 16 = JInt v /\ 0 <= v <= 255 /\
    Str.lower (Str.padStart 2 "0" (toString16 (JInt v)))
      = Str.lower (String a (String b "")).
Proof.
  intros Ha Hb. apply isHexDigit_In in Ha, Hb.
  pose proof hexPairs_ok as Hall.
  rewrite forallb_forall in Hall. specialize (Hall a Ha).
  rewrite forallb_forall in Hall. specialize (Hall b Hb).
  unfold hexPairOk in Hall.
  destruct (parseInt (String a (String b "")) 16) as [v| |]; try discriminate.
  apply andb_prop in Hall as [Hrange Heq].
  apply andb_prop in Hrange as [Hlo Hhi].
  exists v. split; [reflexivity|]. split; [lia|].
  now apply String.eqb_eq.
Qed.

Lemma code_35 (c : ascii) : (Str.code c =? 35) = true -> c = "#"%char.
Proof.
  destruct c as [[] [] [] [] [] [] [] []]; intros H;
    (discriminate H || reflexivity).
Qed.

Lemma lower_app (s t : string) :
  Str.lower (s ++ t) = Str.lower s ++ Str.lower t.
Proof. induction s as [|x s IH]; simpl; [reflexivity | now rewrite IH]. Qed.

Lemma validHexColor_shape (c : string) :
  validHexColor c = true ->
  exists c1 c2 c3 c4 c5 c6 : ascii,
    c = String "#" (String c1 (String c2 (String c3 (String c4
          (String c5 (String c6 "")))))) /\
    isHexDigit c1 = true /\ isHexDigit c2 = true /\ isHexDigit c3 = true /\
    isHexDigit c4 = true /\ isHexDigit c5 = true /\ isHexDigit c6 = true.
Proof.
  unfold validHexColor. destruct c as [|c0 rest]; [discriminate|].
  intros H. apply andb_prop in H as [H Hall].
  apply andb_prop in H as [H0 Hlen].
  apply code_35 in H0. subst c0.
  destruct rest as [|c1 [|c2 [|c3 [|c4 [|c5 [|c6 [|c7 rest]]]]]]];
    try discriminate Hlen.
  simpl in Hall.
  repeat match goal with
         | H : _ && _ = true |- _ => apply andb_prop in H as [? H]
         end.
  exists c1, c2, c3, c4, c5, c6. repeat split; assumption.
Qed.

Lemma hexToRgb_pairs (c1 c2 c3 c4 c5 c6 : ascii) :
  hexToRgb (String "#" (String c1 (String c2 (String c3 (String c4
              (String c5 (String c6 "")))))))
  = Rgb (parseInt (String c1 (String c2 "")) 16)
        (parseInt (String c3 (String c4 "")) 16)
        (parseInt (String c5 (String c6 "")) 16).
Proof. reflexivity. Qed.

(** A valid colour has three channels that are integers from 0 to 255. *)
Lemma hexToRgb_channels (c : string) :
  validHexColor c = true ->
  exists r g b : Z,
    hexToRgb c = Rgb (JInt r) (JInt g) (JInt b) /\
    0 <= r <= 255 /\ 0 <= g <= 255 /\ 0 <= b <= 255.
Proof.
  intros Hc.
  destruct (validHexColor_shape c Hc)
    as (c1 & c2 & c3 & c4 & c5 & c6 & -> & H1 & H2 & H3 & H4 & H5 & H6).
  destruct (hexPair_roundtrip c1 c2 H1 H2) as (r & Pr & Rr & _).
  destruct (hexPair_roundtrip c3 c4 H3 H4) as (g & Pg & Rg & _).
  destruct (hexPair_roundtrip c5 c6 H5 H6) as (b & Pb & Rb & _).
  exists r, g, b. rewrite hexToRgb_pairs, Pr, Pg, Pb. auto.
Qed.

(** C1. For a colour [c] made of [#] and six hexadecimal digits, [hexToRgb]
    gives three integers between 0 and 255, and writing them back as a
    [#]-prefixed string of six hexadecimal digits gives [c] again up to the
    case of its letters. *)
Theorem hexToRgb_roundtrip (c : string) :
  validHexColor c = true ->
  exists r g b : Z,
    hexToRgb c = Rgb (JInt r) (JInt g) (JInt b) /\
    0 <= r <= 255 /\ 0 <= g <= 255 /\ 0 <= b <= 255 /\
    Str.lower (rgbToHex r g b) = Str.lower c.
Proof.
  intros Hc.
  destruct (validHexColor_shape c Hc)
    as (c1 & c2 & c3 & c4 & c5 & c6 & -> & H1 & H2 & H3 & H4 & H5 & H6).
  destruct (hexPair_roundtrip c1 c2 H1 H2) as (r & Pr & Rr & Lr).
  destruct (hexPair_roundtrip c3 c4 H3 H4) as (g & Pg & Rg & Lg).
  destruct (hexPair_roundtrip c5 c6 H5 H6) as (b & Pb & Rb & Lb).
  exists r, g, b.
  split.
  { now rewrite hexToRgb_pairs, Pr, Pg, Pb. }
  repeat (split; [assumption|]).
  unfold rgbToHex. rewrite !lower_app, Lr, Lg, Lb. reflexivity.
Qed.

Lemma hexToRgb_roundtrip_witness :
  exists r g b : Z,
    hexToRgb "#Ff6a0B" = Rgb (JInt r) (JInt g) (JInt b) /\
    0 <= r <= 255 /\ 0 <= g <= 255 /\ 0 <= b <= 255 /\
    Str.lower (rgbToHex r g b) = Str.lower "#Ff6a0B".
Proof. apply (hexToRgb_roundtrip "#Ff6a0B"). reflexivity. Defined.

(** ** RGB to HSL *)

Example rgbToHsl_336699 :
  rgbToHsl 51 102 153 = Hsl 210 49.999999999999993 40.
Proof. vm_compute. reflexivity. Qed.

Lemma channels_spec :
  channels = map (fun k : nat => floatOfZ (Z.of_nat k)) (seq 0 256).
Proof. vm_compute. reflexivity. Qed.

Lemma units_spec : units = map (fun x : float => (x / 255)%float) channels.
Proof. vm_compute. reflexivity. Qed.

Lemma channel_In (v : Z) : 0 <= v <= 255 -> In (floatOfZ v) channels.
Proof.
  intros Hv. rewrite channels_spec.
  replace v with (Z.of_nat (Z.to_nat v)) by lia.
  apply (in_map (fun k : nat => floatOfZ (Z.of_nat k))).
  apply in_seq. lia.
Qed.

Lemma unit_In (v : Z) :
  0 <= v <= 255 -> In (floatOfZ v / 255)%float units.
Proof.
  intros Hv. rewrite units_spec.
  apply (in_map (fun x : float => (x / 255)%float)). now apply channel_In.
Qed.

(** Every pair of unit channels, by evaluation. *)
Lemma allPairsOk :
  forallb (fun a => forallb (fun b => pairOk a b) units) units = true.
Proof. vm_cast_no_check (eq_refl true). Qed.

(** Every triple of unit channels has its hue in range, by evaluation. *)
Lemma allTriplesOk :
  forallb (fun r =>
    forallb (fun g =>
      let m := fmax r g in
      let n := fmin r g in
      forallb (fun b => tripleOk r g b m n) units) units) units
  = true.
Proof. vm_cast_no_check (eq_refl true). Qed.

Lemma pair_ok (a b : float) : In a units -> In b units -> pairOk a b = true.
Proof.
  intros Ha Hb. pose proof allPairsOk as H.
  rewrite forallb_forall in H. specialize (H a Ha).
  rewrite forallb_forall in H. now apply H.
Qed.

Lemma triple_ok (r g b : float) :
  In r units -> In g units -> In b units ->
  tripleOk r g b (fmax r g) (fmin r g) = true.
Proof.
  intros Hr Hg Hb. pose proof allTriplesOk as H.
  rewrite forallb_forall in H. specialize (H r Hr).
  rewrite forallb_forall in H. specialize (H g Hg). cbv zeta in H.
  rewrite forallb_forall in H. now apply H.
Qed.

Section UnitChannels.

Variables a b : float.
Hypothesis Ha : In a units.
Hypothesis Hb : In b units.

Lemma max2_unit : max2 a b = fmax a b.
Proof.
  pose proof (pair_ok a b Ha Hb) as H. unfold pairOk in H.
  repeat (apply andb_prop in H as [H _]).
  now apply FloatAxioms.Leibniz.eqb_spec.
Qed.

Lemma min2_unit : min2 a b = fmin a b.
Proof.
  pose proof (pair_ok a b Ha Hb) as H. unfold pairOk in H.
  do 3 (apply andb_prop in H as [H _]). apply andb_prop in H as [_ H].
  now apply FloatAxioms.Leibniz.eqb_spec.
Qed.

Lemma fmin_le_fmax : fle (fmin a b) (fmax a b).
Proof.
  pose proof (pair_ok a b Ha Hb) as H. unfold pairOk in H.
  do 2 (apply andb_prop in H as [H _]). apply andb_prop in H as [_ H].
  exact H.
Qed.

Lemma not_lt_le : (b <? a)%float = false -> fle a b.
Proof.
  intros Hlt. pose proof (pair_ok a b Ha Hb) as H. unfold pairOk in H.
  apply andb_prop in H as [H _]. apply andb_prop in H as [_ H].
  rewrite Hlt in H. exact H.
Qed.

Lemma extremes_ok :
  fle b a ->
  inRangeOk 0 (satOf a b) 100 = true /\
  inRangeOk 0 (lightOf a b) 100 = true /\
  rampOk (lightOf a b) = true.
Proof.
  intros Hle. pose proof (pair_ok a b Ha Hb) as H. unfold pairOk in H.
  apply andb_prop in H as [_ H]. unfold fle in Hle. rewrite Hle in H.
  apply andb_prop in H as [H Hramp]. apply andb_prop in H as [Hs Hl].
  repeat split; assumption.
Qed.

Lemma fmax_In : In (fmax a b) units.
Proof. unfold fmax. now destruct (a <? b)%float. Qed.

Lemma fmin_In : In (fmin a b) units.
Proof. unfold fmin. now destruct (b <? a)%float. Qed.

End UnitChannels.

Section UnitTriples.

Variables r g b : float.
Hypothesis Hr : In r units.
Hypothesis Hg : In g units.
Hypothesis Hb : In b units.

Lemma Math_max_unit : Math_max r g b = fmax (fmax r g) b.
Proof.
  unfold Math_max. rewrite (max2_unit r g Hr Hg).
  apply max2_unit; [now apply fmax_In | assumption].
Qed.

Lemma Math_min_unit : Math_min r g b = fmin (fmin r g) b.
Proof.
  unfold Math_min. rewrite (min2_unit r g Hr Hg).
  apply min2_unit; [now apply fmin_In | assumption].
Qed.

Lemma Math_min_le_max : fle (Math_min r g b) (Math_max r g b).
Proof.
  rewrite Math_max_unit, Math_min_unit.
  pose proof (fmax_In r g Hr Hg) as Hx.
  pose proof (fmin_In r g Hr Hg) as Hy.
  pose proof (fmin_le_fmax r g Hr Hg) as Hyx.
  unfold fmax at 1. unfold fmin at 1.
  destruct (fmax r g <? b)%float eqn:H1, (b <? fmin r g)%float eqn:H2.
  - pose proof (fmin_le_fmax b b Hb Hb) as H.
    unfold fmin, fmax in H. now destruct (b <? b)%float.
  - now apply not_lt_le.
  - now apply not_lt_le.
  - exact Hyx.
Qed.

Lemma Math_max_In : In (Math_max r g b) units.
Proof. rewrite Math_max_unit. apply fmax_In; [now apply fmax_In | assumption]. Qed.

Lemma Math_min_In : In (Math_min r g b) units.
Proof. rewrite Math_min_unit. apply fmin_In; [now apply fmin_In | assumption]. Qed.

End UnitTriples.

Lemma rgbToHsl_components (r g b : float) :
  let max := Math_max (r / 255) (g / 255) (b / 255) in
  let min := Math_min (r / 255) (g / 255) (b / 255) in
  rgbToHsl r g b
    = Hsl (hueOf (r / 255) (g / 255) (b / 255) max min)
          (satOf max min) (lightOf max min).
Proof.
  unfold rgbToHsl, hueOf, satOf, lightOf. cbv zeta.
  destruct (Math_max (r / 255) (g / 255) (b / 255)
            =? Math_min (r / 255) (g / 255) (b / 255))%float; reflexivity.
Qed.

(** The three components for integer channels, each with what the
    evaluation over all unit channels gives. *)
Lemma rgbToHsl_checked (r g b : Z) :
  0 <= r <= 255 -> 0 <= g <= 255 -> 0 <= b <= 255 ->
  let x := rgbToHsl (floatOfZ r) (floatOfZ g) (floatOfZ b) in
  hueOk (hsl_h x) = true /\
  inRangeOk 0 (hsl_s x) 100 = true /\
  inRangeOk 0 (hsl_l x) 100 = true /\
  rampOk (hsl_l x) = true.
Proof.
  intros Hr Hg Hb x. subst x. rewrite rgbToHsl_components. cbv zeta.
  pose proof (unit_In r Hr) as Ur. pose proof (unit_In g Hg) as Ug.
  pose proof (unit_In b Hb) as Ub.
  simpl hsl_h. simpl hsl_s. simpl hsl_l.
  split.
  - rewrite Math_max_unit, Math_min_unit by assumption.
    exact (triple_ok _ _ _ Ur Ug Ub).
  - apply extremes_ok.
    + now apply Math_max_In.
    + now apply Math_min_In.
    + now apply Math_min_le_max.
Qed.

(** C3. For channels that are integers between 0 and 255, [rgbToHsl]
    returns a hue in [[0, 360)] and a saturation and a lightness in
    [[0, 100]]. *)
Theorem rgbToHsl_range (r g b : Z) :
  0 <= r <= 255 -> 0 <= g <= 255 -> 0 <= b <= 255 ->
  let x := rgbToHsl (floatOfZ r) (floatOfZ g) (floatOfZ b) in
  fle 0 (hsl_h x) /\ flt (hsl_h x) 360 /\
  fle 0 (hsl_s x) /\ fle (hsl_s x) 100 /\
  fle 0 (hsl_l x) /\ fle (hsl_l x) 100.
Proof.
  intros Hr Hg Hb x. unfold fle, flt.
  destruct (rgbToHsl_checked r g b Hr Hg Hb) as (Hh & Hs & Hl & _).
  fold x in Hh, Hs, Hl.
  unfold hueOk in Hh. unfold inRangeOk in Hs, Hl.
  apply andb_prop in Hh as [Hh0 Hh1].
  apply andb_prop in Hs as [Hs0 Hs1].
  apply andb_prop in Hl as [Hl0 Hl1].
  repeat split; assumption.
Qed.

Lemma rgbToHsl_range_witness :
  let x := rgbToHsl (floatOfZ 51) (floatOfZ 102) (floatOfZ 153) in
  fle 0 (hsl_h x) /\ flt (hsl_h x) 360 /\
  fle 0 (hsl_s x) /\ fle (hsl_s x) 100 /\
  fle 0 (hsl_l x) /\ fle (hsl_l x) 100.
Proof. apply (rgbToHsl_range 51 102 153); lia. Defined.

Lemma allAchromaticOk : forallb achromaticOk channels = true.
Proof. vm_compute. reflexivity. Qed.

(** C8. For an integer [v] between 0 and 255, [rgbToHsl v v v] has
    saturation 0 and hue 0. *)
Theorem rgbToHsl_achromatic (v : Z) :
  0 <= v <= 255 ->
  let x := rgbToHsl (floatOfZ v) (floatOfZ v) (floatOfZ v) in
  hsl_s x = 0%float /\ hsl_h x = 0%float.
Proof.
  intros Hv x. pose proof allAchromaticOk as H.
  rewrite forallb_forall in H. specialize (H _ (channel_In v Hv)).
  unfold achromaticOk in H. fold x in H.
  apply andb_prop in H as [Hh Hs].
  split; now apply FloatAxioms.Leibniz.eqb_spec.
Qed.

Lemma rgbToHsl_achromatic_witness :
  let x := rgbToHsl (floatOfZ 128) (floatOfZ 128) (floatOfZ 128) in
  hsl_s x = 0%float /\ hsl_h x = 0%float.
Proof. apply (rgbToHsl_achromatic 128). lia. Defined.

(** ** The swatch: clipboard text and shade ramp *)

(** C10. The valid colour [#ff0001] (r = 255, g = 0, b = 1) has a hue below
    360 that [Math.round] takes to 360, and the HSL text copied for it
    starts with 360. *)
Theorem hslClipboard_hue_360 :
  validHexColor "#ff0001" = true /\
  hexToRgb "#ff0001" = Rgb (JInt 255) (JInt 0) (JInt 1) /\
  swatchHsl "#ff0001" = rgbToHsl 255 0 1 /\
  flt (hsl_h (rgbToHsl 255 0 1)) 360 /\
  Math_round (hsl_h (rgbToHsl 255 0 1)) = JInt 360 /\
  hslClipboard "#ff0001" = "360, 100%, 50%".
Proof. unfold flt. vm_compute. repeat split; reflexivity. Qed.

Lemma shadeFactors_spec :
  shadeFactors
    = map (fun i : nat => (1 - indexNumber i * 0.2)%float) (seq 0 5).
Proof. vm_compute. reflexivity. Qed.

Lemma shadeComponents_lightness (x : hsl) :
  map hsl_l (shadeComponents x) = rampOf (hsl_l x).
Proof.
  unfold shadeComponents, rampOf. rewrite shadeFactors_spec, !map_map.
  reflexivity.
Qed.

Lemma rampOk_spec (l : float) :
  rampOk l = true ->
  nth 0 (rampOf l) nan = l /\
  forall i : nat,
    (i < 4)%nat -> fle (nth (S i) (rampOf l) nan) (nth i (rampOf l) nan).
Proof.
  unfold rampOk, rampOf, shadeFactors. simpl map. intros H.
  apply andb_prop in H as [Hfirst Hdown].
  apply FloatAxioms.Leibniz.eqb_spec in Hfirst.
  split; [exact Hfirst|].
  simpl in Hdown.
  repeat match goal with
         | H : _ && _ = true |- _ => apply andb_prop in H as [? H]
         end.
  intros i Hi. unfold fle.
  destruct i as [|[|[|[|i]]]]; simpl; try assumption; lia.
Qed.

(** C4. The five shades of a valid colour keep its hue and saturation and
    have the lightness [l * (1 - i * 0.2)] for [i] from 0 to 4; the first
    lightness is [l] itself, and each one is at most the one before. *)
Theorem shades_ramp (c : string) :
  validHexColor c = true ->
  let x := swatchHsl c in
  let ls := map hsl_l (shadeComponents x) in
  shadeComponents x
    = map (fun i : nat =>
             Hsl (hsl_h x) (hsl_s x)
                 (hsl_l x * (1 - indexNumber i * 0.2))%float)
          (seq 0 5) /\
  (forall numberToString : float -> string,
      shades numberToString c
        = map (hslString numberToString) (shadeComponents x)) /\
  nth 0 ls nan = hsl_l x /\
  forall i : nat, (i < 4)%nat -> fle (nth (S i) ls nan) (nth i ls nan).
Proof.
  intros Hc x ls.
  split; [reflexivity|]. split; [reflexivity|].
  subst ls. rewrite shadeComponents_lightness.
  apply rampOk_spec.
  destruct (hexToRgb_channels c Hc) as (r & g & b & Hrgb & Hr & Hg & Hb).
  subst x. unfold swatchHsl. rewrite Hrgb. simpl numberOf.
  now destruct (rgbToHsl_checked r g b Hr Hg Hb) as (_ & _ & _ & Hramp).
Qed.

Lemma shades_ramp_witness :
  let x := swatchHsl "#336699" in
  let ls := map hsl_l (shadeComponents x) in
  shadeComponents x
    = map (fun i : nat =>
             Hsl (hsl_h x) (hsl_s x)
                 (hsl_l x * (1 - indexNumber i * 0.2))%float)
          (seq 0 5) /\
  (forall numberToString : float -> string,
      shades numberToString "#336699"
        = map (hslString numberToString) (shadeComponents x)) /\
  nth 0 ls nan = hsl_l x /\
  forall i : nat, (i < 4)%nat -> fle (nth (S i) ls nan) (nth i ls nan).
Proof. apply (shades_ramp "#336699"). reflexivity. Defined.

(** ** Binary64 products of a random number *)

Lemma digits2_size (p : positive) : digits2_pos p = Pos.size p.
Proof. induction p; simpl; congruence. Qed.

Lemma pos_lt_pow_size (p : positive) : Zpos p < 2 ^ Zpos (Pos.size p).
Proof.
  pose proof (Pos.size_gt p) as H.
  apply Pos2Z.pos_lt_pos in H. now rewrite Pos2Z.inj_pow in H.
Qed.

Lemma pow_size_le (p : positive) : 2 ^ Zpos (Pos.size p) <= 2 * Zpos p.
Proof.
  pose proof (Pos.size_le p) as H.
  apply Pos2Z.pos_le_pos in H. now rewrite Pos2Z.inj_pow in H.
Qed.

Lemma Zdigits2_le (m k : Z) : 0 <= k -> 0 <= m < 2 ^ k -> 0 <= Zdigits2 m <= k.
Proof.
  intros Hk [Hm0 Hm]. destruct m as [|p|p]; simpl; try lia.
  rewrite digits2_size. split; [lia|].
  pose proof (pow_size_le p) as H.
  destruct (Z_le_gt_dec (Zpos (Pos.size p)) k) as [|Hgt]; [assumption|].
  exfalso.
  assert (2 ^ (k + 1) <= 2 ^ Zpos (Pos.size p))
    by (apply Z.pow_le_mono_r; lia).
  rewrite Z.pow_add_r in H0 by lia. lia.
Qed.

Lemma shr_1_m (mrs : shr_record) :
  0 <= shr_m mrs -> shr_m (shr_1 mrs) = shr_m mrs / 2.
Proof.
  destruct mrs as [m r s]. cbn [shr_m]. intros Hm.
  destruct m as [|[p|p|]|p]; cbn [shr_1 shr_m]; try reflexivity; try lia.
  - apply Z.div_unique with 1; lia.
  - apply Z.div_unique with 0; lia.
Qed.

Lemma iter_pos_shr_1 (p : positive) :
  forall mrs : shr_record,
    0 <= shr_m mrs ->
    shr_m (SpecFloat.iter_pos shr_1 p mrs) = shr_m mrs / 2 ^ Zpos p.
Proof.
  assert (Hnn : forall mrs, 0 <= shr_m mrs -> 0 <= shr_m (shr_1 mrs)).
  { intros mrs H. rewrite shr_1_m by assumption. apply Z.div_pos; lia. }
  induction p as [p IH|p IH|]; intros mrs Hm; simpl SpecFloat.iter_pos.
  - rewrite IH, IH, shr_1_m; try assumption.
    + rewrite !Z.div_div by lia. f_equal.
      rewrite Pos2Z.inj_xI. rewrite <- !Z.pow_add_r, <- Z.pow_succ_r by lia.
      f_equal. lia.
    + now apply Hnn.
    + rewrite IH by now apply Hnn. apply Z.div_pos; [now apply Hnn | lia].
  - rewrite IH, IH; try assumption.
    + rewrite Z.div_div by lia. f_equal.
      rewrite Pos2Z.inj_xO, <- Z.pow_add_r by lia. f_equal. lia.
    + rewrite IH by assumption. apply Z.div_pos; lia.
  - now rewrite shr_1_m.
Qed.

Lemma shr_spec (mrs : shr_record) (e n : Z) :
  0 <= shr_m mrs ->
  shr_m (fst (shr mrs e n)) = shr_m mrs / 2 ^ Z.max n 0 /\
  snd (shr mrs e n) = e + Z.max n 0.
Proof.
  intros Hm. destruct n as [|p|p]; simpl.
  - rewrite Z.div_1_r. lia.
  - rewrite iter_pos_shr_1 by assumption. split; [reflexivity|lia].
  - rewrite Z.div_1_r. lia.
Qed.

Lemma shr_fexp_exact (m e : Z) :
  0 <= m ->
  let n := Z.max (fexp prec emax (Zdigits2 m + e) - e) 0 in
  shr_m (fst (shr_fexp prec emax m e loc_Exact)) = m / 2 ^ n /\
  snd (shr_fexp prec emax m e loc_Exact) = e + n.
Proof.
  intros Hm n. unfold shr_fexp.
  apply (shr_spec (shr_record_of_loc m loc_Exact)). simpl. exact Hm.
Qed.

Lemma round_nearest_even_bounds (m : Z) (l : location) :
  m <= round_nearest_even m l <= m + 1.
Proof.
  unfold round_nearest_even.
  destruct l as [|[| |]]; try lia. destruct (Z.even m); lia.
Qed.

Lemma fexp_64 (x : Z) : fexp prec emax x = Z.max (x - 53) (-1074).
Proof. reflexivity. Qed.

Lemma binary_round_aux_bound (M E : Z) :
  0 < M < 2 ^ 106 -> -1103 <= E <= -82 ->
  let R := binary_round_aux prec emax false M E loc_Exact in
  R = S754_zero false \/
  exists (m3 : positive) (e3 : Z),
    R = S754_finite false m3 e3 /\ E <= e3 /\
    Zpos m3 * 2 ^ (e3 - E) <= M + 2 ^ 53.
Proof.
  intros HM HE R. subst R. unfold binary_round_aux.
  destruct (shr_fexp_exact M E ltac:(lia)) as [Hm1 He1].
  destruct (shr_fexp prec emax M E loc_Exact) as [mrs1 e1].
  cbn [fst snd] in Hm1, He1.
  pose proof (Zdigits2_le M 106 ltac:(lia) ltac:(lia)) as Hd.
  rewrite fexp_64 in Hm1, He1.
  set (n1 := Z.max (Z.max (Zdigits2 M + E - 53) (-1074) - E) 0) in *.
  assert (Hn1 : 0 <= n1 <= 53) by lia.
  set (m1 := shr_m mrs1) in *.
  assert (HA : 0 < 2 ^ n1) by (apply Z.pow_pos_nonneg; lia).
  assert (HA53 : 2 ^ n1 <= 2 ^ 53) by (apply Z.pow_le_mono_r; lia).
  assert (Hm1M : m1 * 2 ^ n1 <= M)
    by (rewrite Hm1, Z.mul_comm; apply Z.mul_div_le; lia).
  assert (Hm1nn : 0 <= m1) by (rewrite Hm1; apply Z.div_pos; lia).
  pose proof (round_nearest_even_bounds m1 (loc_of_shr_record mrs1)) as Hm2.
  set (m2 := round_nearest_even m1 (loc_of_shr_record mrs1)) in *.
  assert (Hm2M : m2 < 2 ^ 107).
  { assert (m1 <= M) by nia.
    change (2 ^ 107) with (2 * 2 ^ 106). lia. }
  destruct (shr_fexp_exact m2 e1 ltac:(lia)) as [Hm3 He3].
  destruct (shr_fexp prec emax m2 e1 loc_Exact) as [mrs3 e3].
  cbn [fst snd] in Hm3, He3.
  pose proof (Zdigits2_le m2 107 ltac:(lia) ltac:(lia)) as Hd2.
  rewrite fexp_64 in Hm3, He3.
  set (n2 := Z.max (Z.max (Zdigits2 m2 + e1 - 53) (-1074) - e1) 0) in *.
  assert (Hn2 : 0 <= n2 <= 54) by lia.
  assert (HB : 0 < 2 ^ n2) by (apply Z.pow_pos_nonneg; lia).
  assert (Hm3m2 : shr_m mrs3 * 2 ^ n2 <= m2)
    by (rewrite Hm3, Z.mul_comm; apply Z.mul_div_le; lia).
  assert (Hm3nn : 0 <= shr_m mrs3) by (rewrite Hm3; apply Z.div_pos; lia).
  destruct (shr_m mrs3) as [|m3|m3] eqn:Hs; [now left | | lia].
  right. exists m3, e3.
  replace (e3 <=? emax - prec) with true
    by (symmetry; apply Z.leb_le; change (emax - prec) with 971; lia).
  split; [reflexivity|]. split; [lia|].
  replace (e3 - E) with (n2 + n1) by lia.
  rewrite Z.pow_add_r by lia. nia.
Qed.

Lemma Prim2SF_0 : Prim2SF 0 = S754_zero false.
Proof. reflexivity. Qed.

Lemma Prim2SF_1 : Prim2SF 1 = S754_finite false 4503599627370496 (-52).
Proof. reflexivity. Qed.

Lemma Prim2SF_16777215 :
  Prim2SF 16777215 = S754_finite false 9007198717870080 (-29).
Proof. reflexivity. Qed.

(** A number in [[0, 1)] is a zero or [m * 2^e] with [m < 2^53] and
    [e <= -53]. *)
Lemma unitInterval_shape (u : float) :
  unitInterval u = true ->
  (exists s : bool, Prim2SF u = S754_zero s) \/
  exists (m : positive) (e : Z),
    Prim2SF u = S754_finite false m e /\
    -1074 <= e <= -53 /\ Zpos m < 2 ^ 53.
Proof.
  unfold unitInterval. intros H. apply andb_prop in H as [H0 H1].
  rewrite leb_spec, Prim2SF_0 in H0. rewrite ltb_spec, Prim2SF_1 in H1.
  pose proof (Prim2SF_valid u) as Hv.
  destruct (Prim2SF u) as [s|s| |s m e]; try discriminate.
  - left. now exists s.
  - destruct s; discriminate.
  - right. exists m, e.
    destruct s; [discriminate|]. split; [reflexivity|].
    unfold valid_binary, bounded, canonical_mantissa in Hv.
    apply andb_prop in Hv as [Hc _]. apply Z.eqb_eq in Hc.
    rewrite fexp_64, digits2_size in Hc.
    pose proof (pos_lt_pow_size m) as Hlt.
    pose proof (pow_size_le m) as Hge.
    unfold SFltb, SFcompare in H1.
    assert (Hsz : Zpos (Pos.size m) <= 53) by lia.
    assert (Hm : Zpos m < 2 ^ 53).
    { eapply Z.lt_le_trans; [exact Hlt|]. apply Z.pow_le_mono_r; lia. }
    destruct (Z.compare_spec e (-52)) as [He|He|He]; try discriminate.
    + exfalso. subst e.
      assert (Hs : Zpos (Pos.size m) = 53) by lia. rewrite Hs in Hge.
      rewrite Pos.compare_cont_spec in H1. simpl in H1.
      destruct (Pos.compare_spec m 4503599627370496) as [Hx|Hx|Hx];
        try discriminate.
      apply Pos2Z.pos_lt_pos in Hx.
      change (2 ^ 53) with 9007199254740992 in Hge. lia.
    + lia.
Qed.

Lemma top_unit_floor :
  floorSF (SF64mul (S754_finite false 9007199254740991 (-53))
                   (S754_finite false 9007198717870080 (-29)))
    = JInt 16777214.
Proof. vm_compute. reflexivity. Qed.

(** The product of [m * 2^e], at least two units below 1, and 16777215
    rounds to a number below 16777215. *)
Lemma Math_floor_gap (m : positive) (e : Z) :
  -1074 <= e <= -53 -> Zpos m < 2 ^ 53 -> Zpos m + 2 <= 2 ^ (- e) ->
  exists n : Z,
    floorSF (SF64mul (S754_finite false m e)
                     (S754_finite false 9007198717870080 (-29))) = JInt n /\
    0 <= n <= 16777214.
Proof.
  intros He Hm Hgap. unfold SF64mul, SFmul. cbn [xorb].
  rewrite Pos2Z.inj_mul.
  set (M := Zpos m * 9007198717870080).
  set (E := e + -29).
  assert (HM : 0 < M < 2 ^ 106).
  { subst M. change (2 ^ 106) with (2 ^ 53 * 2 ^ 53).
    change (2 ^ 53) with 9007199254740992 in *. nia. }
  assert (HE : -1103 <= E <= -82) by (subst E; lia).
  assert (Hpow : 2 ^ (- E) = 2 ^ 29 * 2 ^ (- e)).
  { subst E. replace (- (e + -29)) with (29 + - e) by lia.
    rewrite Z.pow_add_r by lia. reflexivity. }
  assert (Hroom : M + 2 ^ 53 < 16777215 * 2 ^ (- E)).
  { rewrite Hpow. subst M.
    change (2 ^ 29) with 536870912. change (2 ^ 53) with 9007199254740992 in *.
    nia. }
  destruct (binary_round_aux_bound M E HM HE) as [-> | (m3 & e3 & -> & He3 & Hb)].
  - exists 0. split; [reflexivity | lia].
  - cbn [floorSF cond_Zopp].
    assert (Hlt : Zpos m3 * 2 ^ (e3 - E) < 16777215 * 2 ^ (- E)) by lia.
    destruct (Z.leb_spec 0 e3) as [Hpos | Hneg].
    + exists (Zpos m3 * 2 ^ e3). split; [reflexivity|].
      replace (e3 - E) with (e3 + - E) in Hlt by lia.
      rewrite Z.pow_add_r in Hlt by lia.
      assert (0 < 2 ^ (- E)) by (apply Z.pow_pos_nonneg; lia).
      assert (0 < 2 ^ e3) by (apply Z.pow_pos_nonneg; lia).
      nia.
    + exists (Zpos m3 / 2 ^ (- e3)). split; [reflexivity|].
      assert (Hsplit : 2 ^ (- E) = 2 ^ (e3 - E) * 2 ^ (- e3)).
      { rewrite <- Z.pow_add_r by lia. f_equal. lia. }
      rewrite Hsplit in Hlt.
      assert (0 < 2 ^ (e3 - E)) by (apply Z.pow_pos_nonneg; lia).
      assert (0 < 2 ^ (- e3)) by (apply Z.pow_pos_nonneg; lia).
      assert (Zpos m3 < 16777215 * 2 ^ (- e3)) by nia.
      split; [apply Z.div_pos; lia|].
      assert (Zpos m3 / 2 ^ (- e3) < 16777215)
        by (apply Z.div_lt_upper_bound; lia).
      lia.
Qed.

(** [Math.floor(u * 16777215)] for [u] in [[0, 1)] is an integer from 0 to
    16777214. *)
Lemma Math_floor_scaled (u : float) :
  unitInterval u = true ->
  exists n : Z,
    Math_floor (u * 16777215) = JInt n /\ 0 <= n <= 16777214.
Proof.
  intros Hu. unfold Math_floor. rewrite mul_spec, Prim2SF_16777215.
  destruct (unitInterval_shape u Hu) as [[s Hs] | (m & e & Hs & He & Hm)];
    rewrite Hs.
  - exists 0. split; [reflexivity | lia].
  - destruct (Z.eq_dec e (-53)) as [He53 | He53];
      [destruct (Z.eq_dec (Zpos m) 9007199254740991) as [Hmtop | Hmtop]|].
    + exists 16777214. subst e. injection Hmtop as ->.
      split; [exact top_unit_floor | lia].
    + subst e.
      apply (Math_floor_gap m (-53)); [lia | lia |].
      change (2 ^ (- (-53))) with 9007199254740992. lia.
    + apply (Math_floor_gap m e); [lia | lia |].
      assert (H54 : 2 ^ 54 <= 2 ^ (- e)) by (apply Z.pow_le_mono_r; lia).
      change (2 ^ 54) with (2 * 2 ^ 53) in H54. lia.
Qed.

(** ** Printing a colour *)

Lemma hexDigits_ok : forallb hexDigitOk (map Z.of_nat (seq 0 16)) = true.
Proof. reflexivity. Qed.

Lemma digitChar_hex (d : Z) :
  0 <= d < 16 ->
  isHexDigit (digitChar d) = true /\ digitValue 16 (digitChar d) = Some d.
Proof.
  intros Hd. pose proof hexDigits_ok as H. rewrite forallb_forall in H.
  specialize (H d). unfold hexDigitOk in H.
  assert (Hin : In d (map Z.of_nat (seq 0 16))).
  { replace d with (Z.of_nat (Z.to_nat d)) by lia.
    apply in_map, in_seq. lia. }
  apply H in Hin. apply andb_prop in Hin as [H1 H2].
  split; [assumption|].
  destruct (digitValue 16 (digitChar d)) as [d'|]; [|discriminate].
  apply Z.eqb_eq in H2. now subst.
Qed.

Lemma radixDigits_hex (fuel : nat) :
  forall (n : Z) (s : string),
    Str.all isHexDigit s = true ->
    Str.all isHexDigit (radixDigits 16 fuel n s) = true.
Proof.
  induction fuel as [|f IH]; intros n s Hs; [exact Hs|].
  cbn [radixDigits].
  assert (Hc : Str.all isHexDigit (String (digitChar (n mod 16)) s) = true).
  { cbn [Str.all]. rewrite Hs.
    destruct (digitChar_hex (n mod 16)) as [-> _];
      [apply Z.mod_pos_bound; lia | reflexivity]. }
  destruct (n / 16 =? 0); [exact Hc | now apply IH].
Qed.

Lemma radixDigits_length (fuel : nat) :
  forall (n : Z) (s : string) (k : nat),
    0 <= n < 16 ^ Z.of_nat (S k) ->
    (String.length (radixDigits 16 fuel n s) <= S k + String.length s)%nat.
Proof.
  induction fuel as [|f IH]; intros n s k Hn; [simpl; lia|].
  cbn [radixDigits].
  destruct (Z.eqb_spec (n / 16) 0) as [Hq|Hq]; [simpl; lia|].
  destruct k as [|k].
  - exfalso. apply Hq. apply Z.div_small. simpl in Hn. lia.
  - specialize (IH (n / 16) (String (digitChar (n mod 16)) s) k).
    cbn [String.length] in IH.
    assert (0 <= n / 16 < 16 ^ Z.of_nat (S k)).
    { split; [apply Z.div_pos; lia|].
      apply Z.div_lt_upper_bound; [lia|].
      rewrite <- Z.pow_succ_r by lia. rewrite <- Nat2Z.inj_succ. lia. }
    specialize (IH H). lia.
Qed.

Lemma radixDigits_value (fuel : nat) :
  forall (n : Z) (s : string),
    0 <= n < 16 ^ Z.of_nat fuel ->
    hexValue 0 (radixDigits 16 fuel n s) = hexValue n s.
Proof.
  induction fuel as [|f IH]; intros n s Hn.
  - simpl in *. now replace n with 0 by lia.
  - cbn [radixDigits].
    assert (Hd : digitValue 16 (digitChar (n mod 16)) = Some (n mod 16))
      by (apply digitChar_hex, Z.mod_pos_bound; lia).
    destruct (Z.eqb_spec (n / 16) 0) as [Hq|Hq].
    + cbn [hexValue]. rewrite Hd. f_equal.
      pose proof (Z.div_mod n 16 ltac:(lia)). lia.
    + rewrite IH.
      * cbn [hexValue]. rewrite Hd. f_equal.
        pose proof (Z.div_mod n 16 ltac:(lia)). lia.
      * split; [apply Z.div_pos; lia|].
        apply Z.div_lt_upper_bound; [lia|].
        rewrite <- Z.pow_succ_r by lia. rewrite <- Nat2Z.inj_succ. lia.
Qed.

Lemma digitsOfNat_fuel (n : Z) :
  0 <= n -> n < 16 ^ Z.of_nat (S (Z.to_nat (Z.log2 n))).
Proof.
  intros Hn. destruct (Z.eq_dec n 0) as [->|Hnz]; [reflexivity|].
  pose proof (Z.log2_spec n ltac:(lia)) as [_ Hlt].
  pose proof (Z.log2_nonneg n) as Hl.
  rewrite Nat2Z.inj_succ, Z2Nat.id by lia.
  eapply Z.lt_le_trans; [exact Hlt|].
  apply Z.pow_le_mono_l. lia.
Qed.

(** The padding [padStart] puts in front with the pad string ["0"]. *)
Lemma cycleTake_zeros (k : nat) (cur : string) :
  cur = "" \/ cur = "0" ->
  exists z : string,
    Str.cycleTake k cur "0" = z /\ String.length z = k /\
    Str.all isHexDigit z = true /\
    forall t : string, hexValue 0 (z ++ t) = hexValue 0 t.
Proof.
  revert cur. induction k as [|k IH]; intros cur Hcur.
  - exists "". repeat split.
  - destruct (IH "" (or_introl eq_refl)) as (z & Hz & Hlen & Hall & Hval).
    exists (String "0" z).
    assert (Hstep : Str.cycleTake (S k) cur "0" = String "0" z)
      by (destruct Hcur as [-> | ->]; cbn [Str.cycleTake]; now rewrite Hz).
    split; [exact Hstep|]. split; [simpl; now rewrite Hlen|].
    split; [simpl; exact Hall|].
    intros t. simpl. apply Hval.
Qed.

Lemma str_all_app (p : ascii -> bool) (s t : string) :
  Str.all p (s ++ t) = Str.all p s && Str.all p t.
Proof.
  induction s as [|c s IH]; simpl; [reflexivity|].
  now rewrite IH, andb_assoc.
Qed.

(** The colour printed for an integer below [16^6] is a valid colour whose
    digits denote that integer. *)
Lemma colorOfInt_valid (n : Z) :
  0 <= n < 16 ^ 6 ->
  validHexColor (colorOfInt n) = true /\
  exists digits : string,
    colorOfInt n = String "#" digits /\ hexValue 0 digits = n.
Proof.
  intros Hn. unfold colorOfInt, toString16, toStringRadix.
  replace (n <? 0) with false by (symmetry; apply Z.ltb_ge; lia).
  unfold digitsOfNat.
  set (t := radixDigits 16 (S (Z.to_nat (Z.log2 n))) n "").
  assert (Hall : Str.all isHexDigit t = true)
    by (apply radixDigits_hex; reflexivity).
  assert (Hlen : (String.length t <= 6)%nat).
  { pose proof (radixDigits_length (S (Z.to_nat (Z.log2 n))) n "" 5) as H.
    simpl String.length in H. fold t in H.
    rewrite Nat.add_0_r in H. apply H. exact Hn. }
  assert (Hval : hexValue 0 t = n).
  { subst t. rewrite radixDigits_value; [reflexivity|].
    split; [lia | now apply digitsOfNat_fuel]. }
  clearbody t. unfold Str.padStart.
  destruct (6 <=? String.length t)%nat eqn:Hcmp.
  - apply Nat.leb_le in Hcmp.
    split.
    + cbn. rewrite Hall.
      replace (String.length t) with 6%nat by lia. reflexivity.
    + exists t. split; [reflexivity | exact Hval].
  - apply Nat.leb_gt in Hcmp.
    destruct (cycleTake_zeros (6 - String.length t) "0" (or_intror eq_refl))
      as (z & -> & Hzl & Hza & Hzv).
    split.
    + cbn. rewrite str_all_app, Hza, Hall.
      rewrite str_length_app, Hzl.
      replace (6 - String.length t + String.length t)%nat with 6%nat by lia.
      reflexivity.
    + exists (z ++ t). split; [reflexivity|]. now rewrite Hzv.
Qed.

(** ** Palette generation *)

Lemma generateHarmoniousPalette_draws (g : rng) :
  generateHarmoniousPalette g
    = (map (fun k : nat => colorOfDraw (g k)) [1; 2; 3; 4; 5]%nat,
       fun k : nat => g (6 + k)%nat).
Proof. reflexivity. Qed.

Lemma handleGenerate_draws (st : session) (g : rng) :
  handleGenerate st g
    = (Session
         (map (fun k : nat =>
                 Entry (colorOfDraw (g k))
                       (labelOfDraw (colorOfDraw (g k)) (g (5 + k)%nat)))
              [1; 2; 3; 4; 5]%nat)
         (adjustments st),
       fun k : nat => g (11 + k)%nat).
Proof. reflexivity. Qed.

(** The colour of a random number in [[0, 1)]. *)
Lemma colorOfDraw_spec (u : float) :
  unitInterval u = true ->
  exists n : Z,
    Math_floor (u * 16777215) = JInt n /\ 0 <= n <= 16777214 /\
    colorOfDraw u = colorOfInt n /\
    validHexColor (colorOfDraw u) = true /\
    colorOfDraw u <> "#ffffff".
Proof.
  intros Hu. destruct (Math_floor_scaled u Hu) as (n & Hn & Hrange).
  exists n. split; [exact Hn|]. split; [exact Hrange|].
  assert (Heq : colorOfDraw u = colorOfInt n)
    by (unfold colorOfDraw, colorOfInt; now rewrite Hn).
  split; [exact Heq|]. rewrite Heq.
  destruct (colorOfInt_valid n) as (Hvalid & digits & Hdigits & Hval);
    [change (16 ^ 6) with 16777216; lia|].
  split; [exact Hvalid|].
  rewrite Hdigits. intros Hwhite. injection Hwhite as Hd.
  rewrite Hd in Hval. vm_compute in Hval. lia.
Qed.

Lemma label_nonempty (word rest : string) : word ++ "-" ++ rest <> "".
Proof. destruct word; discriminate. Qed.

(** C9. Whatever numbers in [[0, 1)] [Math.random] returns, the integer
    formatted for a slot is between 0 and 16777214 and no colour of the
    palette is [#ffffff]; 0 and 16777214 are both reached, and [#ffffff] is
    the colour of 16777215. *)
Theorem palette_never_white (g : rng) :
  fair g ->
  Forall (fun c : string => c <> "#ffffff")
         (fst (generateHarmoniousPalette g)) /\
  (forall k : nat,
      exists n : Z,
        Math_floor (g k * 16777215) = JInt n /\ 0 <= n <= 16777214 /\
        colorOfDraw (g k) = colorOfInt n) /\
  Math_floor (0 * 16777215) = JInt 0 /\
  Math_floor (topDraw * 16777215) = JInt 16777214 /\
  colorOfInt 16777215 = "#ffffff".
Proof.
  intros Hg. split; [|split].
  - rewrite generateHarmoniousPalette_draws. cbn [fst].
    apply Forall_map, Forall_forall. intros k _.
    now destruct (colorOfDraw_spec (g k) (Hg k)) as (n & _ & _ & _ & _ & Hw).
  - intros k.
    destruct (colorOfDraw_spec (g k) (Hg k)) as (n & Hn & Hr & Hc & _).
    now exists n.
  - vm_compute. repeat split; reflexivity.
Qed.

Lemma palette_never_white_witness :
  Forall (fun c : string => c <> "#ffffff")
         (fst (generateHarmoniousPalette (fun _ : nat => topDraw))) /\
  (forall k : nat,
      exists n : Z,
        Math_floor (topDraw * 16777215) = JInt n /\ 0 <= n <= 16777214 /\
        colorOfDraw topDraw = colorOfInt n) /\
  Math_floor (0 * 16777215) = JInt 0 /\
  Math_floor (topDraw * 16777215) = JInt 16777214 /\
  colorOfInt 16777215 = "#ffffff".
Proof.
  apply (palette_never_white (fun _ : nat => topDraw)).
  intros k. reflexivity.
Defined.

(** C7. With random numbers in [[0, 1)], [handleGenerate] leaves a palette
    of exactly five entries, each with a valid colour and a label that is
    not empty, and the adjustments it found. *)
Theorem handleGenerate_shape (st : session) (g : rng) :
  fair g ->
  let st' := fst (handleGenerate st g) in
  List.length (palette st') = 5%nat /\
  Forall (fun e : entry => validHexColor (color e) = true /\ name e <> "")
         (palette st') /\
  adjustments st' = adjustments st.
Proof.
  intros Hg st'. subst st'. rewrite handleGenerate_draws. cbn [fst palette].
  split; [reflexivity|]. split; [|reflexivity].
  apply Forall_map, Forall_forall. intros k _. cbn [color name].
  split.
  - now destruct (colorOfDraw_spec (g k) (Hg k)) as (n & _ & _ & _ & Hv & _).
  - apply label_nonempty.
Qed.

Lemma handleGenerate_shape_witness :
  let st' :=
    fst (handleGenerate (Session [] (Adjustment 10 (-20) 30))
                        (fun _ : nat => 0.5%float)) in
  List.length (palette st') = 5%nat /\
  Forall (fun e : entry => validHexColor (color e) = true /\ name e <> "")
         (palette st') /\
  adjustments st' = Adjustment 10 (-20) 30.
Proof.
  apply (handleGenerate_shape (Session [] (Adjustment 10 (-20) 30))
           (fun _ : nat => 0.5%float)).
  intros k. reflexivity.
Defined.

(** C2. The palette does not depend on the number drawn for the base hue:
    slot [i] is the colour of the number drawn for it alone. At the largest
    number [Math.random] can return every slot is [#fffffe], one short of
    [#ffffff], the colour of 16777215. *)
Theorem palette_top_draw :
  (forall g : rng,
      fst (generateHarmoniousPalette g)
        = map (fun k : nat => colorOfDraw (g k)) [1; 2; 3; 4; 5]%nat) /\
  (forall (g : rng) (u0 : float),
      fst (generateHarmoniousPalette
             (fun k : nat => match k with O => u0 | S _ => g k end))
        = fst (generateHarmoniousPalette g)) /\
  fst (generateHarmoniousPalette (fun _ : nat => topDraw))
    = ["#fffffe"; "#fffffe"; "#fffffe"; "#fffffe"; "#fffffe"] /\
  colorOfInt 16777215 = "#ffffff".
Proof.
  split; [|split; [|split]].
  - intros g. now rewrite generateHarmoniousPalette_draws.
  - intros g u0. now rewrite !generateHarmoniousPalette_draws.
  - vm_compute. reflexivity.
  - vm_compute. reflexivity.
Qed.

(** ** A session from start to export *)

(** A session started with every random number equal to one half has five
    entries; renaming the entry at index 2 and exporting gives a snapshot
    whose third pair has the new name and the old colour. *)
Example rename_then_export :
  let st := fst (initialSession (fun _ : nat => 0.5%float)) in
  List.length (palette st) = 5%nat /\
  importSnapshot (handleExport (updateName 2 "Custom" st))
    = Some [Entry "#7fffff" "Stone-7ff"; Entry "#7fffff" "Stone-7ff";
            Entry "#7fffff" "Custom"; Entry "#7fffff" "Stone-7ff";
            Entry "#7fffff" "Stone-7ff"].
Proof. vm_compute. split; reflexivity. Qed.

(* ===================================================================== *)
(** * Further properties *)
(* ===================================================================== *)

(** ** Labels *)

(** Rounding [M * 2^E] (the exact product of two binary64 numbers) moves it
    up by at most [2^N], [N] bounding the number of bits dropped. *)
Lemma binary_round_aux_room (M E N : Z) :
  0 < M < 2 ^ 106 -> -1200 <= E <= -82 -> 0 <= N ->
  Zdigits2 M - 53 <= N -> -1074 - E <= N ->
  let R := binary_round_aux prec emax false M E loc_Exact in
  R = S754_zero false \/
  exists (m3 : positive) (e3 : Z),
    R = S754_finite false m3 e3 /\ E <= e3 /\
    Zpos m3 * 2 ^ (e3 - E) <= M + 2 ^ N.
Proof.
  intros HM HE HN HdN HeN R. subst R. unfold binary_round_aux.
  destruct (shr_fexp_exact M E ltac:(lia)) as [Hm1 He1].
  destruct (shr_fexp prec emax M E loc_Exact) as [mrs1 e1].
  cbn [fst snd] in Hm1, He1.
  pose proof (Zdigits2_le M 106 ltac:(lia) ltac:(lia)) as Hd.
  rewrite fexp_64 in Hm1, He1.
  set (n1 := Z.max (Z.max (Zdigits2 M + E - 53) (-1074) - E) 0) in *.
  assert (Hn1 : 0 <= n1 <= N) by lia.
  set (m1 := shr_m mrs1) in *.
  assert (HA : 0 < 2 ^ n1) by (apply Z.pow_pos_nonneg; lia).
  assert (HAN : 2 ^ n1 <= 2 ^ N) by (apply Z.pow_le_mono_r; lia).
  assert (Hm1M : m1 * 2 ^ n1 <= M)
    by (rewrite Hm1, Z.mul_comm; apply Z.mul_div_le; lia).
  assert (Hm1nn : 0 <= m1) by (rewrite Hm1; apply Z.div_pos; lia).
  pose proof (round_nearest_even_bounds m1 (loc_of_shr_record mrs1)) as Hm2.
  set (m2 := round_nearest_even m1 (loc_of_shr_record mrs1)) in *.
  assert (Hm2M : m2 < 2 ^ 107).
  { assert (m1 <= M) by nia.
    change (2 ^ 107) with (2 * 2 ^ 106). lia. }
  destruct (shr_fexp_exact m2 e1 ltac:(lia)) as [Hm3 He3].
  destruct (shr_fexp prec emax m2 e1 loc_Exact) as [mrs3 e3].
  cbn [fst snd] in Hm3, He3.
  pose proof (Zdigits2_le m2 107 ltac:(lia) ltac:(lia)) as Hd2.
  rewrite fexp_64 in Hm3, He3.
  set (n2 := Z.max (Z.max (Zdigits2 m2 + e1 - 53) (-1074) - e1) 0) in *.
  assert (Hn2 : 0 <= n2) by lia.
  assert (He3hi : e3 <= 25) by lia.
  assert (HB : 0 < 2 ^ n2) by (apply Z.pow_pos_nonneg; lia).
  assert (Hm3m2 : shr_m mrs3 * 2 ^ n2 <= m2)
    by (rewrite Hm3, Z.mul_comm; apply Z.mul_div_le; lia).
  assert (Hm3nn : 0 <= shr_m mrs3) by (rewrite Hm3; apply Z.div_pos; lia).
  destruct (shr_m mrs3) as [|m3|m3] eqn:Hs; [now left | | lia].
  right. exists m3, e3.
  replace (e3 <=? emax - prec) with true
    by (symmetry; apply Z.leb_le; change (emax - prec) with 971; lia).
  split; [reflexivity|]. split; [lia|].
  replace (e3 - E) with (n2 + n1) by lia.
  rewrite Z.pow_add_r by lia. nia.
Qed.

(** The floor of a rounded product that stays below [C]. *)
Lemma floorSF_below (R : spec_float) (M E N C : Z) :
  E <= 0 -> 0 < C -> M + 2 ^ N < C * 2 ^ (- E) ->
  (R = S754_zero false \/
   exists (m3 : positive) (e3 : Z),
     R = S754_finite false m3 e3 /\ E <= e3 /\
     Zpos m3 * 2 ^ (e3 - E) <= M + 2 ^ N) ->
  exists n : Z, floorSF R = JInt n /\ 0 <= n < C.
Proof.
  intros HE HC Hroom [-> | (m3 & e3 & -> & He3 & Hb)].
  - exists 0. split; [reflexivity | lia].
  - cbn [floorSF cond_Zopp].
    assert (Hlt : Zpos m3 * 2 ^ (e3 - E) < C * 2 ^ (- E)) by lia.
    destruct (Z.leb_spec 0 e3) as [Hpos | Hneg].
    + exists (Zpos m3 * 2 ^ e3). split; [reflexivity|].
      replace (e3 - E) with (e3 + - E) in Hlt by lia.
      rewrite Z.pow_add_r in Hlt by lia.
      assert (0 < 2 ^ (- E)) by (apply Z.pow_pos_nonneg; lia).
      assert (0 < 2 ^ e3) by (apply Z.pow_pos_nonneg; lia).
      nia.
    + exists (Zpos m3 / 2 ^ (- e3)). split; [reflexivity|].
      assert (Hsplit : 2 ^ (- E) = 2 ^ (e3 - E) * 2 ^ (- e3)).
      { rewrite <- Z.pow_add_r by lia. f_equal. lia. }
      rewrite Hsplit in Hlt.
      assert (0 < 2 ^ (e3 - E)) by (apply Z.pow_pos_nonneg; lia).
      assert (0 < 2 ^ (- e3)) by (apply Z.pow_pos_nonneg; lia).
      assert (Zpos m3 < C * 2 ^ (- e3)) by nia.
      split; [apply Z.div_pos; lia|].
      apply Z.div_lt_upper_bound; lia.
Qed.

Lemma Prim2SF_8 : Prim2SF 8 = S754_finite false 4503599627370496 (-49).
Proof. reflexivity. Qed.

Lemma floatOfZ_names : floatOfZ (Z.of_nat (List.length names)) = 8%float.
Proof. reflexivity. Qed.

Lemma top_unit_floor_8 :
  floorSF (SF64mul (S754_finite false 9007199254740991 (-53))
                   (S754_finite false 4503599627370496 (-49)))
    = JInt 7.
Proof. vm_compute. reflexivity. Qed.

Lemma Math_floor_gap_8 (m : positive) (e : Z) :
  -1074 <= e <= -53 -> Zpos m < 2 ^ 53 -> Zpos m + 2 <= 2 ^ (- e) ->
  exists n : Z,
    floorSF (SF64mul (S754_finite false m e)
                     (S754_finite false 4503599627370496 (-49))) = JInt n /\
    0 <= n < 8.
Proof.
  intros He Hm Hgap. unfold SF64mul, SFmul. cbn [xorb].
  rewrite Pos2Z.inj_mul.
  set (M := Zpos m * 4503599627370496).
  set (E := e + -49).
  assert (HM : 0 < M < 2 ^ 106).
  { subst M. change (2 ^ 106) with (2 ^ 53 * 2 ^ 53).
    change (2 ^ 53) with 9007199254740992 in *. nia. }
  assert (HM105 : M < 2 ^ 105).
  { subst M. change (2 ^ 105) with (2 ^ 53 * 4503599627370496).
    change (2 ^ 53) with 9007199254740992 in *. nia. }
  assert (HE : -1200 <= E <= -82) by (subst E; lia).
  assert (Hpow : 2 ^ (- E) = 2 ^ 49 * 2 ^ (- e)).
  { subst E. replace (- (e + -49)) with (49 + - e) by lia.
    rewrite Z.pow_add_r by lia. reflexivity. }
  pose proof (Zdigits2_le M 105 ltac:(lia) ltac:(lia)) as Hd.
  assert (Hroom : M + 2 ^ 52 < 8 * 2 ^ (- E)).
  { rewrite Hpow. subst M.
    change (2 ^ 49) with 562949953421312.
    change (2 ^ 52) with 4503599627370496. nia. }
  apply (floorSF_below _ M E 52 8); [lia | lia | exact Hroom |].
  apply binary_round_aux_room; lia.
Qed.

(** [Math.floor(u * 8)] for [u] in [[0, 1)] is an index from 0 to 7. *)
Lemma Math_floor_index (u : float) :
  unitInterval u = true ->
  exists n : Z, Math_floor (u * 8) = JInt n /\ 0 <= n < 8.
Proof.
  intros Hu. unfold Math_floor. rewrite mul_spec, Prim2SF_8.
  destruct (unitInterval_shape u Hu) as [[s Hs] | (m & e & Hs & He & Hm)];
    rewrite Hs.
  - exists 0. split; [reflexivity | lia].
  - destruct (Z.eq_dec e (-53)) as [He53 | He53];
      [destruct (Z.eq_dec (Zpos m) 9007199254740991) as [Hmtop | Hmtop]|].
    + exists 7. subst e. injection Hmtop as ->.
      split; [exact top_unit_floor_8 | lia].
    + subst e. apply (Math_floor_gap_8 m (-53)); [lia | lia |].
      change (2 ^ (- (-53))) with 9007199254740992. lia.
    + apply (Math_floor_gap_8 m e); [lia | lia |].
      assert (H54 : 2 ^ 54 <= 2 ^ (- e)) by (apply Z.pow_le_mono_r; lia).
      change (2 ^ 54) with (2 * 2 ^ 53) in H54. lia.
Qed.

Lemma nameAt_In (n : Z) : 0 <= n < 8 -> In (nameAt (JInt n)) names.
Proof.
  intros Hn. unfold nameAt.
  replace (n <? 0) with false by (symmetry; apply Z.ltb_ge; lia).
  destruct (nth_error names (Z.to_nat n)) as [w|] eqn:Hw.
  - eapply nth_error_In; eassumption.
  - apply nth_error_None in Hw. simpl in Hw. lia.
Qed.

Lemma labelOfDraw_word (hex : string) (u : float) :
  unitInterval u = true ->
  exists w : string,
    In w names /\ labelOfDraw hex u = w ++ "-" ++ Str.slice 1 4 hex.
Proof.
  intros Hu. unfold labelOfDraw. rewrite floatOfZ_names.
  destruct (Math_floor_index u Hu) as (n & -> & Hn).
  exists (nameAt (JInt n)). split; [now apply nameAt_In | reflexivity].
Qed.

(** X1. With a random number in [[0, 1)], [generateColorName] draws exactly one
    number and returns one of the eight words, a hyphen, and the characters
    at positions 1 to 3 of its argument. *)
Theorem generateColorName_label (hex : string) (g : rng) :
  fair g ->
  snd (generateColorName hex g) = (fun k : nat => g (S k)) /\
  exists w : string,
    In w names /\
    fst (generateColorName hex g) = w ++ "-" ++ Str.slice 1 4 hex.
Proof.
  intros Hg. split; [reflexivity|].
  destruct (labelOfDraw_word hex (g 0%nat) (Hg 0%nat)) as (w & Hw & Hl).
  exists w. split; [exact Hw | exact Hl].
Qed.

Lemma generateColorName_label_witness :
  snd (generateColorName "#336699" (fun _ : nat => topDraw))
    = (fun k : nat => topDraw) /\
  exists w : string,
    In w names /\
    fst (generateColorName "#336699" (fun _ : nat => topDraw))
      = w ++ "-" ++ Str.slice 1 4 "#336699".
Proof.
  apply (generateColorName_label "#336699" (fun _ : nat => topDraw)).
  intros k. reflexivity.
Defined.

(** ** [hexToRgb] on arbitrary strings *)






Lemma substring_beyond (n m : nat) (s : string) :
  (String.length s <= n)%nat -> substring n m s = "".
Proof.
  revert n m. induction s as [|c s IH]; intros [|n] [|m] Hlen;
    simpl in *; try reflexivity; try lia.
  - apply IH. lia.
  - apply IH. lia.
Qed.





(** ** [NaN] channels *)

Lemma Prim2SF_nan : Prim2SF nan = S754_nan.
Proof. reflexivity. Qed.

Lemma is_nan_eq (x : float) : is_nan x = true -> x = nan.
Proof.
  intros H. apply Prim2SF_inj. rewrite Prim2SF_nan.
  unfold Prim2SF. now rewrite H.
Qed.

Lemma eqb_nan_l (x : float) : (nan =? x)%float = false.
Proof. rewrite FloatAxioms.eqb_spec, Prim2SF_nan. reflexivity. Qed.

Lemma max2_nan_l (y : float) : max2 nan y = nan.
Proof. reflexivity. Qed.

Lemma max2_nan_r (x : float) : max2 x nan = nan.
Proof.
  unfold max2. destruct (is_nan x) eqn:Hx; [now apply is_nan_eq | reflexivity].
Qed.

Lemma min2_nan_l (y : float) : min2 nan y = nan.
Proof. reflexivity. Qed.

Lemma min2_nan_r (x : float) : min2 x nan = nan.
Proof.
  unfold min2. destruct (is_nan x) eqn:Hx; [now apply is_nan_eq | reflexivity].
Qed.

Lemma Math_extrema_nan (r g b : float) :
  r = nan \/ g = nan \/ b = nan ->
  Math_max r g b = nan /\ Math_min r g b = nan.
Proof.
  unfold Math_max, Math_min.
  intros [-> | [-> | ->]];
    rewrite ?max2_nan_l, ?max2_nan_r, ?min2_nan_l, ?min2_nan_r,
            ?max2_nan_l, ?min2_nan_l; split; reflexivity.
Qed.

Lemma div_nan (y : float) : (nan / y)%float = nan.
Proof.
  apply Prim2SF_inj. rewrite div_spec, Prim2SF_nan. reflexivity.
Qed.

Lemma rgbToHsl_nan_channel (r g b : float) :
  r = nan \/ g = nan \/ b = nan ->
  rgbToHsl r g b = Hsl 0 nan nan.
Proof.
  intros H. rewrite rgbToHsl_components. cbv zeta.
  destruct (Math_extrema_nan (r / 255) (g / 255) (b / 255)) as [-> ->].
  { destruct H as [-> | [-> | ->]]; rewrite div_nan; auto. }
  unfold hueOf. rewrite !eqb_nan_l. reflexivity.
Qed.

(** X4. When a channel is [NaN], [rgbToHsl] returns hue 0 and a saturation
    and a lightness that are [NaN]. *)
Theorem rgbToHsl_nan (r g b : float) :
  r = nan \/ g = nan \/ b = nan ->
  rgbToHsl r g b = Hsl 0 nan nan.
Proof. exact (rgbToHsl_nan_channel r g b). Qed.

Lemma rgbToHsl_nan_witness : rgbToHsl 12 nan 200 = Hsl 0 nan nan.
Proof. apply (rgbToHsl_nan 12 nan 200). right. left. reflexivity. Defined.

(** X5. A colour string of at most five characters has no blue channel; its
    HSL text is [0, NaN%, NaN%], its RGB text ends in [NaN], and every
    shade has hue 0 and [NaN] elsewhere. *)
Theorem swatch_short_color (c : string) :
  (String.length c <= 5)%nat ->
  rgb_b (hexToRgb c) = JNaN /\
  swatchHsl c = Hsl 0 nan nan /\
  hslClipboard c = "0, NaN%, NaN%" /\
  shadeComponents (swatchHsl c)
    = [Hsl 0 nan nan; Hsl 0 nan nan; Hsl 0 nan nan; Hsl 0 nan nan;
       Hsl 0 nan nan].
Proof.
  intros Hlen.
  assert (Hb : rgb_b (hexToRgb c) = JNaN).
  { unfold hexToRgb, Str.slice. cbn [rgb_b]. now rewrite substring_beyond. }
  assert (Hx : swatchHsl c = Hsl 0 nan nan).
  { unfold swatchHsl. apply rgbToHsl_nan_channel. right. right.
    now rewrite Hb. }
  split; [exact Hb|]. split; [exact Hx|].
  unfold hslClipboard. rewrite Hx. split; reflexivity.
Qed.

Lemma swatch_short_color_witness :
  rgb_b (hexToRgb "#abc") = JNaN /\
  swatchHsl "#abc" = Hsl 0 nan nan /\
  hslClipboard "#abc" = "0, NaN%, NaN%" /\
  shadeComponents (swatchHsl "#abc")
    = [Hsl 0 nan nan; Hsl 0 nan nan; Hsl 0 nan nan; Hsl 0 nan nan;
       Hsl 0 nan nan].
Proof. apply (swatch_short_color "#abc"). simpl. lia. Defined.

(** ** Clipboard texts of a valid colour *)

(** A valid number between zero and the integer [K = mb * 2^eb] rounds
    to an integer from 0 to [K]. *)
Lemma roundSF_range (x : spec_float) (mb : positive) (eb K : Z) :
  valid_binary x = true ->
  SFleb (S754_zero false) x = true ->
  SFleb x (S754_finite false mb eb) = true ->
  eb < 0 -> 2 ^ 52 <= Zpos mb -> Zpos mb = K * 2 ^ (- eb) ->
  exists n : Z, roundSF x = JInt n /\ 0 <= n <= K.
Proof.
  intros Hv H0 H1 Heb Hmb HK.
  assert (Hpb : 0 < 2 ^ (- eb)) by (apply Z.pow_pos_nonneg; lia).
  assert (HK0 : 0 < K) by nia.
  destruct x as [s|s| |s m e]; try discriminate.
  - exists 0. split; [reflexivity | lia].
  - destruct s; discriminate.
  - destruct s; [discriminate|].
    unfold valid_binary, bounded, canonical_mantissa in Hv.
    apply andb_prop in Hv as [Hc _]. apply Z.eqb_eq in Hc.
    rewrite fexp_64, digits2_size in Hc.
    pose proof (pos_lt_pow_size m) as Hlt.
    assert (Hm : Zpos m < 2 ^ 53).
    { eapply Z.lt_le_trans; [exact Hlt|]. apply Z.pow_le_mono_r; lia. }
    unfold SFleb, SFcompare in H1.
    assert (Hle : e <= eb /\ Zpos m <= K * 2 ^ (- e)).
    { destruct (Z.compare_spec e eb) as [He|He|He]; try discriminate.
      - subst e. split; [lia|]. rewrite <- HK.
        rewrite Pos.compare_cont_spec in H1. simpl in H1.
        destruct (Pos.compare_spec m mb) as [Hx|Hx|Hx]; try discriminate.
        + subst. lia.
        + apply Pos2Z.pos_lt_pos in Hx. lia.
      - split; [lia|].
        replace (- e) with (- eb + (eb - e)) by lia.
        rewrite Z.pow_add_r, Z.mul_assoc, <- HK by lia.
        assert (2 ^ 1 <= 2 ^ (eb - e)) by (apply Z.pow_le_mono_r; lia).
        change (2 ^ 1) with 2 in *.
        change (2 ^ 53) with (2 * 2 ^ 52) in Hm. nia. }
    destruct Hle as [He Hmle].
    cbn [roundSF cond_Zopp].
    replace (0 <=? e) with false by (symmetry; apply Z.leb_gt; lia).
    exists ((Zpos m + 2 ^ (- e - 1)) / 2 ^ (- e)). split; [reflexivity|].
    assert (Hp : 0 < 2 ^ (- e)) by (apply Z.pow_pos_nonneg; lia).
    assert (Hhalf : 2 ^ (- e) = 2 * 2 ^ (- e - 1)).
    { rewrite <- Z.pow_succ_r by lia. f_equal. lia. }
    assert (Hq : 0 < 2 ^ (- e - 1)) by (apply Z.pow_pos_nonneg; lia).
    split; [apply Z.div_pos; lia|].
    assert ((Zpos m + 2 ^ (- e - 1)) / 2 ^ (- e) < K + 1)
      by (apply Z.div_lt_upper_bound; nia).
    lia.
Qed.

Lemma Prim2SF_100 : Prim2SF 100 = S754_finite false 7036874417766400 (-46).
Proof. reflexivity. Qed.

Lemma Prim2SF_360 : Prim2SF 360 = S754_finite false 6333186975989760 (-44).
Proof. reflexivity. Qed.

Lemma ltb_leb (x y : float) : (x <? y)%float = true -> (x <=? y)%float = true.
Proof.
  rewrite ltb_spec, leb_spec. unfold SFltb, SFleb.
  destruct (SFcompare (Prim2SF x) (Prim2SF y)) as [[| |]|];
    congruence.
Qed.

Lemma Math_round_percent (x : float) :
  inRangeOk 0 x 100 = true ->
  exists n : Z, Math_round x = JInt n /\ 0 <= n <= 100.
Proof.
  unfold inRangeOk. intros H. apply andb_prop in H as [H0 H1].
  rewrite leb_spec, Prim2SF_0 in H0. rewrite leb_spec, Prim2SF_100 in H1.
  unfold Math_round.
  apply (roundSF_range _ 7036874417766400 (-46) 100);
    [apply Prim2SF_valid | assumption | assumption | lia | | ];
    vm_compute; congruence.
Qed.

Lemma Math_round_degrees (x : float) :
  hueOk x = true ->
  exists n : Z, Math_round x = JInt n /\ 0 <= n <= 360.
Proof.
  unfold hueOk. intros H. apply andb_prop in H as [H0 H1].
  apply ltb_leb in H1.
  rewrite leb_spec, Prim2SF_0 in H0. rewrite leb_spec, Prim2SF_360 in H1.
  unfold Math_round.
  apply (roundSF_range _ 6333186975989760 (-44) 360);
    [apply Prim2SF_valid | assumption | assumption | lia | | ];
    vm_compute; congruence.
Qed.

(** X9. The texts copied from the swatch of a valid colour: the three channels
    in decimal, and the rounded hue, saturation and lightness, the hue an
    integer from 0 to 360 and the two percentages integers from 0 to 100. *)
Theorem clipboard_texts (c : string) :
  validHexColor c = true ->
  exists r g b H S L : Z,
    hexToRgb c = Rgb (JInt r) (JInt g) (JInt b) /\
    rgbClipboard c
      = toString (JInt r) ++ ", " ++ toString (JInt g) ++ ", "
          ++ toString (JInt b) /\
    hslClipboard c
      = toString (JInt H) ++ ", " ++ toString (JInt S) ++ "%, "
          ++ toString (JInt L) ++ "%" /\
    0 <= H <= 360 /\ 0 <= S <= 100 /\ 0 <= L <= 100.
Proof.
  intros Hc.
  destruct (hexToRgb_channels c Hc) as (r & g & b & Hrgb & Hr & Hg & Hb).
  destruct (rgbToHsl_checked r g b Hr Hg Hb) as (Hh & Hs & Hl & _).
  destruct (Math_round_degrees _ Hh) as (H & HH & HHr).
  destruct (Math_round_percent _ Hs) as (S & HS & HSr).
  destruct (Math_round_percent _ Hl) as (L & HL & HLr).
  exists r, g, b, H, S, L.
  split; [exact Hrgb|].
  split; [unfold rgbClipboard; now rewrite Hrgb|].
  split; [|auto].
  unfold hslClipboard, swatchHsl. rewrite Hrgb. cbn [rgb_r rgb_g rgb_b numberOf].
  now rewrite HH, HS, HL.
Qed.

Lemma clipboard_texts_witness :
  exists r g b H S L : Z,
    hexToRgb "#336699" = Rgb (JInt r) (JInt g) (JInt b) /\
    rgbClipboard "#336699"
      = toString (JInt r) ++ ", " ++ toString (JInt g) ++ ", "
          ++ toString (JInt b) /\
    hslClipboard "#336699"
      = toString (JInt H) ++ ", " ++ toString (JInt S) ++ "%, "
          ++ toString (JInt L) ++ "%" /\
    0 <= H <= 360 /\ 0 <= S <= 100 /\ 0 <= L <= 100.
Proof. apply (clipboard_texts "#336699"). reflexivity. Defined.

(** ** Greys, exchanged channels and hue sectors *)

Lemma indexedUnits_spec :
  indexedUnits
    = map (fun k : nat => (Z.of_nat k, unitOf (Z.of_nat k))) (seq 0 256).
Proof. vm_compute. reflexivity. Qed.

Lemma indexed_In (v : Z) : 0 <= v <= 255 -> In (v, unitOf v) indexedUnits.
Proof.
  intros Hv. rewrite indexedUnits_spec.
  replace v with (Z.of_nat (Z.to_nat v)) at 1 2 by lia.
  apply (in_map (fun k : nat => (Z.of_nat k, unitOf (Z.of_nat k)))).
  apply in_seq. lia.
Qed.

Lemma allIndexedPairsOk :
  forallb (fun p => forallb (fun q => indexedPairOk p q) indexedUnits)
          indexedUnits = true.
Proof. vm_cast_no_check (eq_refl true). Qed.

Lemma allSectorsOk :
  forallb (fun r =>
    forallb (fun g =>
      let m := fmax r g in
      let n := fmin r g in
      forallb (fun b => sectorOk r g b m n) units) units) units
  = true.
Proof. vm_cast_no_check (eq_refl true). Qed.

Lemma indexedPair_ok (i j : Z) :
  0 <= i <= 255 -> 0 <= j <= 255 ->
  indexedPairOk (i, unitOf i) (j, unitOf j) = true.
Proof.
  intros Hi Hj. pose proof allIndexedPairsOk as H.
  rewrite forallb_forall in H. specialize (H _ (indexed_In i Hi)).
  rewrite forallb_forall in H. exact (H _ (indexed_In j Hj)).
Qed.

Section IndexedUnits.

Variables i j : Z.
Hypothesis Hi : 0 <= i <= 255.
Hypothesis Hj : 0 <= j <= 255.

Lemma unitOf_ltb : (unitOf i <? unitOf j)%float = (i <? j).
Proof.
  pose proof (indexedPair_ok i j Hi Hj) as H. cbn [indexedPairOk] in H.
  apply andb_prop in H as [H _]. apply andb_prop in H as [H _].
  now apply Bool.eqb_prop in H.
Qed.

Lemma unitOf_eqb : (unitOf i =? unitOf j)%float = (i =? j).
Proof.
  pose proof (indexedPair_ok i j Hi Hj) as H. cbn [indexedPairOk] in H.
  apply andb_prop in H as [H _]. apply andb_prop in H as [_ H].
  now apply Bool.eqb_prop in H.
Qed.

End IndexedUnits.

Lemma fmax_unitOf (i j : Z) :
  0 <= i <= 255 -> 0 <= j <= 255 ->
  fmax (unitOf i) (unitOf j) = unitOf (Z.max i j).
Proof.
  intros Hi Hj. unfold fmax. rewrite unitOf_ltb by assumption.
  destruct (Z.ltb_spec i j); f_equal; lia.
Qed.

Lemma fmin_unitOf (i j : Z) :
  0 <= i <= 255 -> 0 <= j <= 255 ->
  fmin (unitOf i) (unitOf j) = unitOf (Z.min i j).
Proof.
  intros Hi Hj. unfold fmin. rewrite unitOf_ltb by assumption.
  destruct (Z.ltb_spec j i); f_equal; lia.
Qed.

Lemma unitOf_In (v : Z) : 0 <= v <= 255 -> In (unitOf v) units.
Proof. exact (unit_In v). Qed.

(** [rgbToHsl] of integer channels, from the largest and the smallest. *)
Lemma rgbToHsl_extrema (r g b : Z) :
  0 <= r <= 255 -> 0 <= g <= 255 -> 0 <= b <= 255 ->
  let max := unitOf (Z.max (Z.max r g) b) in
  let min := unitOf (Z.min (Z.min r g) b) in
  rgbToHsl (floatOfZ r) (floatOfZ g) (floatOfZ b)
    = Hsl (hueOf (unitOf r) (unitOf g) (unitOf b) max min)
          (satOf max min) (lightOf max min).
Proof.
  intros Hr Hg Hb max min. rewrite rgbToHsl_components. cbv zeta.
  fold (unitOf r) (unitOf g) (unitOf b).
  rewrite Math_max_unit, Math_min_unit by now apply unitOf_In.
  rewrite (fmax_unitOf r g), (fmin_unitOf r g) by assumption.
  rewrite fmax_unitOf, fmin_unitOf by lia.
  reflexivity.
Qed.

Lemma extremaChecks (M m : Z) :
  0 <= m <= M -> M <= 255 ->
  Leibniz.eqb (satOf (unitOf M) (unitOf m)) 0 = (M =? m) /\
  Leibniz.eqb (lightOf (unitOf M) (unitOf m)) 0 = (M =? 0) /\
  Leibniz.eqb (lightOf (unitOf M) (unitOf m)) 100 = (m =? 255) /\
  forallb (fun x => inRangeOk 0 x 100)
          (rampOf (lightOf (unitOf M) (unitOf m))) = true.
Proof.
  intros Hm HM.
  pose proof (indexedPair_ok M m ltac:(lia) ltac:(lia)) as H.
  cbn [indexedPairOk] in H. apply andb_prop in H as [_ H].
  replace (m <=? M) with true in H by (symmetry; apply Z.leb_le; lia).
  apply andb_prop in H as [H Hramp]. apply andb_prop in H as [H Hwhite].
  apply andb_prop in H as [Hgrey Hblack].
  apply Bool.eqb_prop in Hgrey, Hblack, Hwhite. auto.
Qed.

Lemma Leibniz_eqb_iff (x y : float) (c : bool) :
  Leibniz.eqb x y = c -> (x = y <-> c = true).
Proof.
  intros <-. symmetry. apply FloatAxioms.Leibniz.eqb_spec.
Qed.

(** X6. For integer channels from 0 to 255: the saturation is 0 exactly for a
    grey (three equal channels), the lightness is 0 exactly for black and
    100 exactly for white. *)
Theorem rgbToHsl_grey_black_white (r g b : Z) :
  0 <= r <= 255 -> 0 <= g <= 255 -> 0 <= b <= 255 ->
  let x := rgbToHsl (floatOfZ r) (floatOfZ g) (floatOfZ b) in
  (hsl_s x = 0%float <-> r = g /\ g = b) /\
  (hsl_l x = 0%float <-> r = 0 /\ g = 0 /\ b = 0) /\
  (hsl_l x = 100%float <-> r = 255 /\ g = 255 /\ b = 255).
Proof.
  intros Hr Hg Hb x. subst x. rewrite rgbToHsl_extrema by assumption.
  cbv zeta. cbn [hsl_s hsl_l].
  destruct (extremaChecks (Z.max (Z.max r g) b) (Z.min (Z.min r g) b))
    as (Hgrey & Hblack & Hwhite & _); try lia.
  apply Leibniz_eqb_iff in Hgrey, Hblack, Hwhite.
  rewrite Hgrey, Hblack, Hwhite, !Z.eqb_eq.
  repeat split; intros; lia.
Qed.

Lemma rgbToHsl_grey_black_white_witness :
  let x := rgbToHsl (floatOfZ 12) (floatOfZ 200) (floatOfZ 12) in
  (hsl_s x = 0%float <-> 12 = 200 /\ 200 = 12) /\
  (hsl_l x = 0%float <-> 12 = 0 /\ 200 = 0 /\ 12 = 0) /\
  (hsl_l x = 100%float <-> 12 = 255 /\ 200 = 255 /\ 12 = 255).
Proof. apply (rgbToHsl_grey_black_white 12 200 12); lia. Defined.

(** X7. Saturation and lightness do not change when two channels are
    exchanged. *)
Theorem rgbToHsl_exchange (r g b : Z) :
  0 <= r <= 255 -> 0 <= g <= 255 -> 0 <= b <= 255 ->
  let x := rgbToHsl (floatOfZ r) (floatOfZ g) (floatOfZ b) in
  let y := rgbToHsl (floatOfZ g) (floatOfZ r) (floatOfZ b) in
  let z := rgbToHsl (floatOfZ r) (floatOfZ b) (floatOfZ g) in
  hsl_s y = hsl_s x /\ hsl_l y = hsl_l x /\
  hsl_s z = hsl_s x /\ hsl_l z = hsl_l x.
Proof.
  intros Hr Hg Hb x y z. subst x y z.
  rewrite !rgbToHsl_extrema by assumption. cbv zeta. cbn [hsl_s hsl_l].
  replace (Z.max (Z.max g r) b) with (Z.max (Z.max r g) b) by lia.
  replace (Z.min (Z.min g r) b) with (Z.min (Z.min r g) b) by lia.
  replace (Z.max (Z.max r b) g) with (Z.max (Z.max r g) b) by lia.
  replace (Z.min (Z.min r b) g) with (Z.min (Z.min r g) b) by lia.
  repeat split; reflexivity.
Qed.

Lemma rgbToHsl_exchange_witness :
  let x := rgbToHsl (floatOfZ 51) (floatOfZ 102) (floatOfZ 153) in
  let y := rgbToHsl (floatOfZ 102) (floatOfZ 51) (floatOfZ 153) in
  let z := rgbToHsl (floatOfZ 51) (floatOfZ 153) (floatOfZ 102) in
  hsl_s y = hsl_s x /\ hsl_l y = hsl_l x /\
  hsl_s z = hsl_s x /\ hsl_l z = hsl_l x.
Proof. apply (rgbToHsl_exchange 51 102 153); lia. Defined.

Lemma sector_ok (r g b : float) :
  In r units -> In g units -> In b units ->
  sectorOk r g b (fmax r g) (fmin r g) = true.
Proof.
  intros Hr Hg Hb. pose proof allSectorsOk as H.
  rewrite forallb_forall in H. specialize (H r Hr).
  rewrite forallb_forall in H. specialize (H g Hg). cbv zeta in H.
  rewrite forallb_forall in H. now apply H.
Qed.

(** X8. The hue of integer channels lies in the sector of the largest one: 0
    for a grey; within 60 degrees of red (from 300 up, or up to 60) when red
    is largest; from 60 to 180 when green is and red is smaller; from 180 to
    300 when blue alone is largest. *)
Theorem rgbToHsl_hue_sector (r g b : Z) :
  0 <= r <= 255 -> 0 <= g <= 255 -> 0 <= b <= 255 ->
  let h := hsl_h (rgbToHsl (floatOfZ r) (floatOfZ g) (floatOfZ b)) in
  (r = g /\ g = b -> h = 0%float) /\
  (g <= r -> b <= r -> b <= g -> b < r -> fle 0 h /\ fle h 60) /\
  (g <= r -> b <= r -> g < b -> fle 300 h /\ flt h 360) /\
  (r < g -> b <= g -> fle 60 h /\ fle h 180) /\
  (r < b -> g < b -> fle 180 h /\ fle h 300).
Proof.
  intros Hr Hg Hb h. subst h. rewrite rgbToHsl_extrema by assumption.
  cbv zeta. cbn [hsl_h].
  pose proof (sector_ok _ _ _ (unitOf_In r Hr) (unitOf_In g Hg)
                (unitOf_In b Hb)) as H.
  unfold sectorOk in H. cbv zeta in H.
  rewrite (fmax_unitOf r g), (fmin_unitOf r g) in H by assumption.
  rewrite fmax_unitOf, fmin_unitOf in H by lia.
  set (M := Z.max (Z.max r g) b) in *.
  set (m := Z.min (Z.min r g) b) in *.
  rewrite !unitOf_eqb, unitOf_ltb in H by lia.
  unfold fle, flt.
  destruct (Z.eqb_spec M m) as [Hgrey | Hgrey].
  { apply FloatAxioms.Leibniz.eqb_spec in H.
    repeat split; intros; try (exfalso; lia); exact H. }
  destruct (Z.eqb_spec M r) as [Hred | Hred].
  { destruct (Z.ltb_spec g b) as [Hgb | Hgb];
      apply andb_prop in H as [H1 H2];
      repeat split; intros; try (exfalso; lia); assumption. }
  destruct (Z.eqb_spec M g) as [Hgreen | Hgreen];
    apply andb_prop in H as [H1 H2];
    repeat split; intros; try (exfalso; lia); assumption.
Qed.

Lemma rgbToHsl_hue_sector_witness :
  let h := hsl_h (rgbToHsl (floatOfZ 51) (floatOfZ 102) (floatOfZ 153)) in
  (51 = 102 /\ 102 = 153 -> h = 0%float) /\
  (102 <= 51 -> 153 <= 51 -> 153 <= 102 -> 153 < 51 -> fle 0 h /\ fle h 60) /\
  (102 <= 51 -> 153 <= 51 -> 102 < 153 -> fle 300 h /\ flt h 360) /\
  (51 < 102 -> 153 <= 102 -> fle 60 h /\ fle h 180) /\
  (51 < 153 -> 102 < 153 -> fle 180 h /\ fle h 300).
Proof. apply (rgbToHsl_hue_sector 51 102 153); lia. Defined.

(** ** Session operations composed *)

Lemma session_eq (s t : session) :
  palette s = palette t -> adjustments s = adjustments t -> s = t.
Proof. destruct s, t; simpl; intros -> ->; reflexivity. Qed.

Lemma entry_eta (e : entry) : Entry (color e) (name e) = e.
Proof. now destruct e. Qed.

(** X11. Renaming twice at one index keeps the last name; renamings at different
    indices commute; a renaming never changes a colour; and renaming an
    entry to the name it has changes nothing. *)
Theorem updateName_compose (st : session) :
  (forall (i : Z) (n1 n2 : string),
      updateName i n2 (updateName i n1 st) = updateName i n2 st) /\
  (forall (i j : Z) (a b : string),
      i <> j ->
      updateName i a (updateName j b st) = updateName j b (updateName i a st)) /\
  (forall (i : Z) (n : string),
      map color (palette (updateName i n st)) = map color (palette st)) /\
  (forall (i : nat) (e : entry),
      palette st !! i = Some e -> updateName (Z.of_nat i) (name e) st = st).
Proof.
  repeat split.
  - intros i n1 n2. apply session_eq; [|reflexivity].
    apply list_eq. intros k. rewrite !updateName_lookup.
    destruct (palette st !! k) as [e|]; simpl; [|reflexivity].
    destruct (decide (Z.of_nat k = i)); reflexivity.
  - intros i j a b Hij. apply session_eq; [|reflexivity].
    apply list_eq. intros k. rewrite !updateName_lookup.
    destruct (palette st !! k) as [e|]; simpl; [|reflexivity].
    destruct (decide (Z.of_nat k = i)), (decide (Z.of_nat k = j));
      try reflexivity. lia.
  - intros i n. apply list_eq. intros k.
    rewrite !list_lookup_fmap, updateName_lookup.
    destruct (palette st !! k) as [e|]; simpl; [|reflexivity].
    destruct (decide (Z.of_nat k = i)); reflexivity.
  - intros i e He. apply session_eq; [|reflexivity].
    apply list_eq. intros k. rewrite updateName_lookup.
    destruct (palette st !! k) as [e'|] eqn:Hk; simpl; [|reflexivity].
    destruct (decide (Z.of_nat k = Z.of_nat i)) as [Heq|]; [|reflexivity].
    apply Nat2Z.inj in Heq. subst k. rewrite He in Hk. injection Hk as <-.
    now rewrite entry_eta.
Qed.

(** X12. The snapshot determines the palette: two sessions with the same export
    text have the same entries in the same order. *)
Theorem handleExport_injective (st st' : session) :
  handleExport st = handleExport st' -> palette st = palette st'.
Proof.
  intros H. destruct st as [p a], st' as [p' a']. simpl.
  rewrite !handleExport_format in H.
  assert (Some p = Some p') as Hs
    by (rewrite <- !importSnapshot_format; now rewrite H).
  now injection Hs.
Qed.

Lemma handleExport_injective_witness :
  palette (Session [Entry "#336699" "Sky-336"] (Adjustment 0 0 0))
    = palette (Session [Entry "#336699" "Sky-336"] (Adjustment 5 (-5) 0)).
Proof.
  apply (handleExport_injective
           (Session [Entry "#336699" "Sky-336"] (Adjustment 0 0 0))
           (Session [Entry "#336699" "Sky-336"] (Adjustment 5 (-5) 0))).
  reflexivity.
Defined.

(** X14. Regenerating forgets every earlier renaming: the new entries depend on
    the random numbers alone; it uses eleven of them, so a second
    regeneration continues with the twelfth. *)
Theorem handleGenerate_sequence (st : session) (g : rng) :
  (forall (i : Z) (n : string),
      handleGenerate (updateName i n st) g = handleGenerate st g) /\
  (forall st' : session,
      palette (fst (handleGenerate st' g)) = palette (fst (handleGenerate st g))) /\
  snd (handleGenerate st g) = (fun k : nat => g (11 + k)%nat) /\
  fst (handleGenerate (fst (handleGenerate st g)) (snd (handleGenerate st g)))
    = fst (handleGenerate st (fun k : nat => g (11 + k)%nat)).
Proof. repeat split. Qed.

(** X15. Regenerate, rename the entry at an index below five, export: reading the
    snapshot back gives the five entries, the renamed one with the new name
    and the colour drawn for its slot. *)
Theorem regenerate_rename_export (st : session) (g : rng) (i : nat)
        (n : string) :
  (i < 5)%nat ->
  let st1 := fst (handleGenerate st g) in
  let st2 := updateName (Z.of_nat i) n st1 in
  importSnapshot (handleExport st2) = Some (palette st2) /\
  List.length (palette st2) = 5%nat /\
  palette st2 !! i = Some (Entry (colorOfDraw (g (S i))) n) /\
  forall k : nat, k <> i -> palette st2 !! k = palette st1 !! k.
Proof.
  intros Hi st1 st2.
  split.
  { destruct st2 as [p a] eqn:E. rewrite handleExport_format.
    apply importSnapshot_format. }
  subst st2 st1. rewrite handleGenerate_draws. cbn [fst].
  split; [unfold updateName; cbn [palette]; now rewrite length_imap|].
  split.
  - rewrite updateName_lookup. cbn [palette].
    destruct i as [|[|[|[|[|i]]]]]; try lia; cbn;
      (destruct (decide _) as [|Hne]; [reflexivity | exfalso; apply Hne; lia]).
  - intros k Hk. rewrite updateName_lookup.
    destruct (_ !! k) as [e|]; simpl; [|reflexivity].
    destruct (decide (Z.of_nat k = Z.of_nat i)); [lia | reflexivity].
Qed.

Lemma regenerate_rename_export_witness :
  let st1 := fst (handleGenerate (Session [] (Adjustment 0 0 0))
                                 (fun _ : nat => 0.5%float)) in
  let st2 := updateName (Z.of_nat 2) "Custom" st1 in
  importSnapshot (handleExport st2) = Some (palette st2) /\
  List.length (palette st2) = 5%nat /\
  palette st2 !! 2%nat = Some (Entry (colorOfDraw 0.5%float) "Custom") /\
  forall k : nat, k <> 2%nat -> palette st2 !! k = palette st1 !! k.
Proof.
  apply (regenerate_rename_export (Session [] (Adjustment 0 0 0))
           (fun _ : nat => 0.5%float) 2 "Custom").
  lia.
Defined.

(** X16. With random numbers in [[0, 1)], every entry [handleGenerate] makes is
    named by one of the eight words, a hyphen and the first three digits of
    its own colour. *)
Theorem handleGenerate_labels (st : session) (g : rng) :
  fair g ->
  Forall (fun e : entry =>
            exists (w : string) (d1 d2 d3 d4 d5 d6 : ascii),
              In w names /\
              color e = String "#" (String d1 (String d2 (String d3
                          (String d4 (String d5 (String d6 "")))))) /\
              name e = w ++ String "-" (String d1 (String d2 (String d3 ""))))
         (palette (fst (handleGenerate st g))).
Proof.
  intros Hg. rewrite handleGenerate_draws. cbn [fst palette].
  apply Forall_map, Forall_forall. intros k _. cbn [color name].
  destruct (colorOfDraw_spec (g k) (Hg k)) as (n & _ & _ & _ & Hv & _).
  destruct (validHexColor_shape _ Hv)
    as (d1 & d2 & d3 & d4 & d5 & d6 & Hshape & _).
  destruct (labelOfDraw_word (colorOfDraw (g k)) (g (5 + k)%nat) (Hg _))
    as (w & Hw & Hl).
  exists w, d1, d2, d3, d4, d5, d6.
  split; [exact Hw|]. split; [exact Hshape|].
  rewrite Hl, Hshape. reflexivity.
Qed.

Lemma handleGenerate_labels_witness :
  Forall (fun e : entry =>
            exists (w : string) (d1 d2 d3 d4 d5 d6 : ascii),
              In w names /\
              color e = String "#" (String d1 (String d2 (String d3
                          (String d4 (String d5 (String d6 "")))))) /\
              name e = w ++ String "-" (String d1 (String d2 (String d3 ""))))
         (palette (fst (handleGenerate (Session [] (Adjustment 0 0 0))
                                       (fun _ : nat => 0.5%float)))).
Proof.
  apply (handleGenerate_labels (Session [] (Adjustment 0 0 0))
           (fun _ : nat => 0.5%float)).
  intros k. reflexivity.
Defined.

(** X17. The session built at start-up, with random numbers in [[0, 1)]: five
    entries with valid colours, all three adjustments zero, and the same
    entries as the first regeneration would give. *)
Theorem initialSession_shape (g : rng) :
  fair g ->
  let st := fst (initialSession g) in
  List.length (palette st) = 5%nat /\
  Forall (fun e : entry => validHexColor (color e) = true) (palette st) /\
  adjustments st = Adjustment 0 0 0 /\
  forall st0 : session, palette st = palette (fst (handleGenerate st0 g)).
Proof.
  intros Hg st. subst st.
  assert (Hinit : forall st0, initialSession g
            = (Session (palette (fst (handleGenerate st0 g))) (Adjustment 0 0 0),
               snd (handleGenerate st0 g))) by (intros; reflexivity).
  rewrite (Hinit (Session [] (Adjustment 0 0 0))), handleGenerate_draws.
  cbn [fst palette adjustments].
  split; [reflexivity|]. split; [|split; [reflexivity|]].
  - apply Forall_map, Forall_forall. intros k _. cbn [color].
    now destruct (colorOfDraw_spec (g k) (Hg k)) as (n & _ & _ & _ & Hv & _).
  - intros st0. now rewrite handleGenerate_draws.
Qed.

Lemma initialSession_shape_witness :
  let st := fst (initialSession (fun _ : nat => 0.5%float)) in
  List.length (palette st) = 5%nat /\
  Forall (fun e : entry => validHexColor (color e) = true) (palette st) /\
  adjustments st = Adjustment 0 0 0 /\
  forall st0 : session,
    palette st = palette (fst (handleGenerate st0 (fun _ : nat => 0.5%float))).
Proof.
  apply (initialSession_shape (fun _ : nat => 0.5%float)).
  intros k. reflexivity.
Defined.

(** X10. Every shade of a valid colour is a colour the style sheet accepts: five
    of them, hue in [[0, 360)], saturation and lightness in [[0, 100]]. *)
Theorem shades_in_range (c : string) :
  validHexColor c = true ->
  List.length (shadeComponents (swatchHsl c)) = 5%nat /\
  (forall numberToString : float -> string,
      List.length (shades numberToString c) = 5%nat) /\
  Forall (fun y : hsl =>
            fle 0 (hsl_h y) /\ flt (hsl_h y) 360 /\
            fle 0 (hsl_s y) /\ fle (hsl_s y) 100 /\
            fle 0 (hsl_l y) /\ fle (hsl_l y) 100)
         (shadeComponents (swatchHsl c)).
Proof.
  intros Hc. split; [reflexivity|]. split; [reflexivity|].
  destruct (hexToRgb_channels c Hc) as (r & g & b & Hrgb & Hr & Hg & Hb).
  unfold swatchHsl. rewrite Hrgb. cbn [rgb_r rgb_g rgb_b numberOf].
  destruct (rgbToHsl_checked r g b Hr Hg Hb) as (Hh & Hs & _ & _).
  unfold hueOk in Hh. unfold inRangeOk in Hs.
  apply andb_prop in Hh as [Hh0 Hh1]. apply andb_prop in Hs as [Hs0 Hs1].
  set (x := rgbToHsl (floatOfZ r) (floatOfZ g) (floatOfZ b)) in *.
  assert (Hramp : forallb (fun v => inRangeOk 0 v 100) (rampOf (hsl_l x)) = true).
  { subst x. rewrite rgbToHsl_extrema by assumption. cbv zeta. cbn [hsl_l].
    apply extremaChecks; lia. }
  rewrite <- shadeComponents_lightness in Hramp.
  rewrite forallb_forall in Hramp.
  apply List.Forall_forall. intros y Hy.
  assert (Hl : inRangeOk 0 (hsl_l y) 100 = true)
    by (apply Hramp; now apply in_map).
  unfold inRangeOk in Hl. apply andb_prop in Hl as [Hl0 Hl1].
  unfold shadeComponents in Hy. apply in_map_iff in Hy as (k & <- & _).
  cbn [hsl_h hsl_s hsl_l] in *. unfold fle, flt.
  repeat split; assumption.
Qed.

Lemma shades_in_range_witness :
  List.length (shadeComponents (swatchHsl "#336699")) = 5%nat /\
  (forall numberToString : float -> string,
      List.length (shades numberToString "#336699") = 5%nat) /\
  Forall (fun y : hsl =>
            fle 0 (hsl_h y) /\ flt (hsl_h y) 360 /\
            fle 0 (hsl_s y) /\ fle (hsl_s y) 100 /\
            fle 0 (hsl_l y) /\ fle (hsl_l y) 100)
         (shadeComponents (swatchHsl "#336699")).
Proof. apply (shades_in_range "#336699"). reflexivity. Defined.

(** ** Layout of the exported text *)

Lemma lineBreaks_app (s t : string) :
  lineBreaks (s ++ t) = (lineBreaks s + lineBreaks t)%nat.
Proof.
  induction s as [|c s IH]; simpl; [reflexivity|].
  rewrite IH. now destruct (Str.code c =? 10).
Qed.

Lemma quoteChar_plain (c : ascii) :
  Str.all plain (quoteChar c) = true.
Proof. destruct c as [[] [] [] [] [] [] [] []]; reflexivity. Qed.

Lemma quoteJSONString_plain (s : string) :
  Str.all plain (quoteJSONString s) = true.
Proof.
  unfold quoteJSONString. cbn [Str.all].
  change (plain dquote) with true. cbn [andb].
  rewrite str_all_app. cbn. rewrite andb_true_r.
  induction s as [|c s IH]; [reflexivity|].
  cbn [quoteBody]. now rewrite str_all_app, quoteChar_plain, IH.
Qed.

Lemma plain_lineBreaks (s : string) :
  Str.all plain s = true -> lineBreaks s = 0%nat.
Proof.
  induction s as [|c s IH]; [reflexivity|]. cbn [Str.all lineBreaks].
  intros H. apply andb_prop in H as [Hc Hs]. rewrite (IH Hs).
  unfold plain in Hc. apply Z.leb_le in Hc.
  destruct (Z.eqb_spec (Str.code c) 10); [lia | reflexivity].
Qed.

Lemma plain_plainOrBreak (s : string) :
  Str.all plain s = true -> Str.all plainOrBreak s = true.
Proof.
  induction s as [|c s IH]; [reflexivity|]. cbn [Str.all].
  intros H. apply andb_prop in H as [Hc Hs]. rewrite (IH Hs).
  unfold plainOrBreak. unfold plain in Hc. now rewrite Hc.
Qed.

Lemma snapshotEntry_text (e : entry) :
  lineBreaks (snapshotEntry e) = 3%nat /\
  Str.all plainOrBreak (snapshotEntry e) = true.
Proof.
  pose proof (quoteJSONString_plain (color e)) as Hc.
  pose proof (quoteJSONString_plain (name e)) as Hn.
  unfold snapshotEntry. split.
  - rewrite !lineBreaks_app.
    rewrite (plain_lineBreaks _ Hc), (plain_lineBreaks _ Hn). reflexivity.
  - rewrite !str_all_app.
    rewrite (plain_plainOrBreak _ Hc), (plain_plainOrBreak _ Hn). reflexivity.
Qed.

Lemma join_entries_text (p : list entry) :
  p <> [] ->
  lineBreaks (join ("," ++ newline) (map snapshotEntry p))
    = (4 * List.length p - 1)%nat /\
  Str.all plainOrBreak (join ("," ++ newline) (map snapshotEntry p)) = true.
Proof.
  induction p as [|e p IH]; [congruence | intros _].
  destruct (snapshotEntry_text e) as [He1 He2].
  destruct p as [|e' p'].
  - simpl map. cbn [join]. split; [rewrite He1; reflexivity | exact He2].
  - destruct (IH ltac:(discriminate)) as [IH1 IH2].
    change (map snapshotEntry (e :: e' :: p'))
      with (snapshotEntry e :: map snapshotEntry (e' :: p')).
    change (join ("," ++ newline) (snapshotEntry e :: map snapshotEntry (e' :: p')))
      with (snapshotEntry e ++ ("," ++ newline)
              ++ join ("," ++ newline) (map snapshotEntry (e' :: p'))).
    split.
    + rewrite !lineBreaks_app, He1, IH1. simpl List.length. simpl lineBreaks.
      lia.
    + rewrite !str_all_app, He2, IH2. reflexivity.
Qed.

(** X13. The layout of the exported text does not depend on what the names
    contain: it has no control character but its line breaks, and a palette
    of [n >= 1] entries gives exactly [4 * n + 1] line breaks (none for an
    empty palette). *)
Theorem handleExport_layout (st : session) :
  Str.all plainOrBreak (handleExport st) = true /\
  lineBreaks (handleExport st)
    = match palette st with
      | [] => 0%nat
      | _ :: _ => (4 * List.length (palette st) + 1)%nat
      end.
Proof.
  destruct st as [p a]. rewrite handleExport_format. cbn [palette].
  destruct p as [|e p]; [split; reflexivity|].
  destruct (join_entries_text (e :: p) ltac:(discriminate)) as [H1 H2].
  unfold snapshotFormat. split.
  - rewrite !str_all_app, H2. reflexivity.
  - rewrite !lineBreaks_app, H1. simpl List.length. simpl lineBreaks. lia.
Qed.

(** ** Sequences of events *)

Lemma fair_shift (g : rng) (n : nat) :
  fair g -> fair (fun k : nat => g (n + k)%nat).
Proof. intros Hg k. apply Hg. Qed.

Lemma handleGenerate_wellFormed (st : session) (g : rng) :
  fair g -> wellFormed (fst (handleGenerate st g)).
Proof.
  intros Hg. rewrite handleGenerate_draws. cbn [fst]. split; [reflexivity|].
  cbn [palette]. apply List.Forall_map, List.Forall_forall. intros k _.
  cbn [color].
  now destruct (colorOfDraw_spec (g k) (Hg k)) as (n & _ & _ & _ & Hv & _).
Qed.

Lemma updateName_wellFormed (i : Z) (n : string) (st : session) :
  wellFormed st -> wellFormed (updateName i n st).
Proof.
  intros [Hlen Hall]. split.
  - unfold updateName. cbn [palette]. now rewrite length_imap.
  - apply List.Forall_forall. intros e He.
    apply list_elem_of_In, list_elem_of_lookup in He as [k Hk].
    rewrite updateName_lookup in Hk.
    destruct (palette st !! k) as [e0|] eqn:Hk0; [|discriminate].
    simpl in Hk. injection Hk as <-.
    assert (He0 : validHexColor (color e0) = true).
    { rewrite List.Forall_forall in Hall. apply Hall.
      apply list_elem_of_In, list_elem_of_lookup. now exists k. }
    now destruct (decide (Z.of_nat k = i)).
Qed.

Lemma step_wellFormed (ev : event) (st : session) (g : rng) :
  fair g -> wellFormed st ->
  wellFormed (fst (step ev st g)) /\ fair (snd (step ev st g)).
Proof.
  intros Hg Hst. destruct ev; cbn [step ret fst snd].
  - split; [now apply handleGenerate_wellFormed|].
    rewrite handleGenerate_draws. cbn [snd]. now apply fair_shift.
  - split; [now apply updateName_wellFormed | exact Hg].
  - split; [exact Hst | exact Hg].
  - split; [exact Hst | exact Hg].
  - split; [exact Hst | exact Hg].
Qed.

Lemma run_cons (ev : event) (evs : list event) (st : session) (g : rng) :
  run (ev :: evs) st g = run evs (fst (step ev st g)) (snd (step ev st g)).
Proof.
  cbn [run]. unfold bind. now destruct (step ev st g).
Qed.

Lemma run_wellFormed (evs : list event) :
  forall (st : session) (g : rng),
    fair g -> wellFormed st -> wellFormed (fst (run evs st g)).
Proof.
  induction evs as [|ev evs IH]; intros st g Hg Hst; [exact Hst|].
  rewrite run_cons.
  destruct (step_wellFormed ev st g Hg Hst) as [Hst' Hg'].
  now apply IH.
Qed.

(** X18. Whatever the user does after start-up, with random numbers in [[0, 1)]
    the palette has exactly five entries and each has a valid colour. *)
Theorem application_wellFormed (evs : list event) (g : rng) :
  fair g -> wellFormed (fst (application evs g)).
Proof.
  intros Hg. unfold application, bind.
  assert (Hinit : initialSession g
            = (Session (palette (fst (handleGenerate (Session [] (Adjustment 0 0 0)) g)))
                       (Adjustment 0 0 0),
               snd (handleGenerate (Session [] (Adjustment 0 0 0)) g)))
    by reflexivity.
  rewrite Hinit. apply run_wellFormed.
  - rewrite handleGenerate_draws. cbn [snd]. now apply fair_shift.
  - exact (handleGenerate_wellFormed _ g Hg).
Qed.

Lemma application_wellFormed_witness :
  wellFormed
    (fst (application [Rename 9 "x"; SlideHue 30; Generate; Rename 0 "Mine"]
              (fun _ : nat => 0.5%float))).
Proof.
  apply (application_wellFormed [Rename 9 "x"; SlideHue 30; Generate; Rename 0 "Mine"]
           (fun _ : nat => 0.5%float)).
  intros k. reflexivity.
Defined.

(** X19. Events other than [Generate] draw no random number and keep every
    colour; slider events keep the whole palette, so the export is the
    same text before and after. *)
Theorem run_keeps_colors (evs : list event) (st : session) (g : rng) :
  (forallb (fun ev => negb (isGenerate ev)) evs = true ->
   snd (run evs st g) = g /\
   map color (palette (fst (run evs st g))) = map color (palette st)) /\
  (forallb isSlide evs = true ->
   palette (fst (run evs st g)) = palette st /\
   handleExport (fst (run evs st g)) = handleExport st).
Proof.
  split.
  - revert st. induction evs as [|ev evs IH]; intros st Hevs; [now split|].
    cbn [forallb] in Hevs. apply andb_prop in Hevs as [Hev Hevs].
    rewrite run_cons.
    destruct ev; try discriminate Hev; cbn [step ret fst snd];
      match goal with
      | |- context [run evs ?s g] => destruct (IH s Hevs) as [Hg Hc]
      end;
      rewrite Hg, Hc; (split; [reflexivity|]); try reflexivity.
    apply list_eq. intros k.
    rewrite !list_lookup_fmap, updateName_lookup.
    destruct (palette st !! k) as [e|]; simpl; [|reflexivity].
    now destruct (decide (Z.of_nat k = index)).
  - revert st. induction evs as [|ev evs IH]; intros st Hevs; [now split|].
    cbn [forallb] in Hevs. apply andb_prop in Hevs as [Hev Hevs].
    rewrite run_cons.
    destruct ev; try discriminate Hev; cbn [step ret fst snd];
      match goal with
      | |- context [run evs ?s g] => destruct (IH s Hevs) as [Hp He]
      end;
      rewrite Hp, He; split; reflexivity.
Qed.

(** ** Generated colours read back *)

Lemma hexPairValues_ok :
  forallb (fun a => forallb (hexPairValueOk a) hexChars) hexChars = true.
Proof. vm_compute. reflexivity. Qed.

Lemma hexPair_value (a b : ascii) :
  isHexDigit a = true -> isHexDigit b = true ->
  parseInt (String a (String b "")) 16
    = JInt (hexValue 0 (String a (String b ""))).
Proof.
  intros Ha Hb. apply isHexDigit_In in Ha, Hb.
  pose proof hexPairValues_ok as H.
  rewrite List.forallb_forall in H. specialize (H a Ha).
  rewrite List.forallb_forall in H. specialize (H b Hb).
  unfold hexPairValueOk in H.
  destruct (parseInt (String a (String b "")) 16) as [v| |]; try discriminate.
  apply Z.eqb_eq in H. now subst.
Qed.

Lemma lowerDigits_ok : forallb lowerDigitOk (map Z.of_nat (seq 0 16)) = true.
Proof. reflexivity. Qed.

Lemma digitChar_lower (d : Z) :
  0 <= d < 16 -> Str.lowerChar (digitChar d) = digitChar d.
Proof.
  intros Hd. pose proof lowerDigits_ok as H. rewrite List.forallb_forall in H.
  assert (Hin : In d (map Z.of_nat (seq 0 16))).
  { replace d with (Z.of_nat (Z.to_nat d)) by lia.
    apply in_map, in_seq. lia. }
  apply H in Hin. unfold lowerDigitOk in Hin. now apply Ascii.eqb_eq in Hin.
Qed.

Lemma radixDigits_lower (fuel : nat) :
  forall (n : Z) (s : string),
    Str.lower s = s ->
    Str.lower (radixDigits 16 fuel n s) = radixDigits 16 fuel n s.
Proof.
  induction fuel as [|f IH]; intros n s Hs; [exact Hs|].
  cbn [radixDigits].
  assert (Hc : Str.lower (String (digitChar (n mod 16)) s)
               = String (digitChar (n mod 16)) s).
  { cbn [Str.lower]. rewrite Hs, digitChar_lower; [reflexivity|].
    apply Z.mod_pos_bound. lia. }
  destruct (n / 16 =? 0); [exact Hc | now apply IH].
Qed.

Lemma cycleTake_lower (k : nat) (cur : string) :
  cur = "" \/ cur = "0" ->
  Str.lower (Str.cycleTake k cur "0") = Str.cycleTake k cur "0".
Proof.
  revert cur. induction k as [|k IH]; intros cur Hcur; [reflexivity|].
  destruct Hcur as [-> | ->]; cbn [Str.cycleTake Str.lower];
    rewrite (IH "" (or_introl eq_refl)); reflexivity.
Qed.

Lemma colorOfInt_lower (n : Z) :
  0 <= n -> Str.lower (colorOfInt n) = colorOfInt n.
Proof.
  intros Hn. unfold colorOfInt, toString16, toStringRadix.
  replace (n <? 0) with false by (symmetry; apply Z.ltb_ge; lia).
  unfold digitsOfNat, Str.padStart.
  set (t := radixDigits 16 (S (Z.to_nat (Z.log2 n))) n "").
  assert (Ht : Str.lower t = t) by (apply radixDigits_lower; reflexivity).
  clearbody t. cbn [append Str.lower].
  change (Str.lowerChar "#") with "#"%char. f_equal.
  destruct (6 <=? String.length t)%nat; [exact Ht|].
  now rewrite lower_app, Ht, cycleTake_lower by (right; reflexivity).
Qed.

(** The colour of a random number in [[0, 1)] is in lower case and
    [hexToRgb] reads it back. *)
Lemma colorOfDraw_parses_back (u : float) :
  unitInterval u = true ->
  Str.lower (colorOfDraw u) = colorOfDraw u /\
  exists r g b : Z,
    hexToRgb (colorOfDraw u) = Rgb (JInt r) (JInt g) (JInt b) /\
    0 <= r <= 255 /\ 0 <= g <= 255 /\ 0 <= b <= 255 /\
    Math_floor (u * 16777215) = JInt (65536 * r + 256 * g + b).
Proof.
  intros Hu.
  destruct (colorOfDraw_spec u Hu) as (n & Hn & Hr & Hc & Hv & _).
  split; [rewrite Hc; apply colorOfInt_lower; lia|].
  destruct (colorOfInt_valid n) as (_ & digits & Hd & Hval);
    [change (16 ^ 6) with 16777216; lia|].
  destruct (hexToRgb_channels _ Hv) as (r & g & b & Hrgb & Rr & Rg & Rb).
  exists r, g, b. repeat (split; [assumption|]).
  rewrite Hn. f_equal. rewrite <- Hval.
  destruct (validHexColor_shape _ Hv)
    as (c1 & c2 & c3 & c4 & c5 & c6 & Hs & H1 & H2 & H3 & H4 & H5 & H6).
  rewrite Hs in Hrgb. rewrite hexToRgb_pairs in Hrgb.
  rewrite (hexPair_value c1 c2), (hexPair_value c3 c4),
          (hexPair_value c5 c6) in Hrgb by assumption.
  injection Hrgb as <- <- <-.
  rewrite Hc, Hd in Hs. injection Hs as ->.
  cbn [hexValue]. lia.
Qed.

(** X20. With random numbers in [[0, 1)], each colour of the generated
    palette is in lower case and [hexToRgb] reads it back: three channels
    from 0 to 255 whose combination [65536 r + 256 g + b] is the integer
    [Math.floor(u * 16777215)] formatted for that slot, [u] being the second
    to sixth random number in order. *)
Theorem palette_parses_back (g : rng) :
  fair g ->
  List.Forall2
    (fun (u : float) (c : string) =>
       Str.lower c = c /\
       exists r g b : Z,
         hexToRgb c = Rgb (JInt r) (JInt g) (JInt b) /\
         0 <= r <= 255 /\ 0 <= g <= 255 /\ 0 <= b <= 255 /\
         Math_floor (u * 16777215) = JInt (65536 * r + 256 * g + b))
    [g 1%nat; g 2%nat; g 3%nat; g 4%nat; g 5%nat]
    (fst (generateHarmoniousPalette g)).
Proof.
  intros Hg. rewrite generateHarmoniousPalette_draws. cbn [fst map].
  repeat (apply List.Forall2_cons;
          [apply colorOfDraw_parses_back, Hg|]).
  apply List.Forall2_nil.
Qed.

Lemma palette_parses_back_witness :
  List.Forall2
    (fun (u : float) (c : string) =>
       Str.lower c = c /\
       exists r g b : Z,
         hexToRgb c = Rgb (JInt r) (JInt g) (JInt b) /\
         0 <= r <= 255 /\ 0 <= g <= 255 /\ 0 <= b <= 255 /\
         Math_floor (u * 16777215) = JInt (65536 * r + 256 * g + b))
    [0.5%float; 0.5%float; 0.5%float; 0.5%float; 0.5%float]
    (fst (generateHarmoniousPalette (fun _ : nat => 0.5%float))).
Proof.
  apply (palette_parses_back (fun _ : nat => 0.5%float)).
  intros k. reflexivity.
Defined.
